(** * Keyword-deck tools: extraction (s1.py), batch diff (ss1.py) and
      similarity scoring (similarity.py)

    A shallow embedding of the three deck-processing scripts and the
    properties of their specification.

    Conventions of the embedding.
    - A Python [str] is a [string]; each character is a code point below
      256, so the text model is Python's behaviour on that range.
    - A Python [float] is a binary64 number, a [spec_float] with
      precision 53 and maximal exponent 1024.
    - A Python [int] is a [Z].
    - A file read with [readlines()] is a [list string], one entry per
      line, each keeping its line terminator. *)

From Stdlib Require Import ZArith NArith Bool Ascii String List Lia.
From Stdlib Require Import Floats.SpecFloat.
From stdpp Require Import base option list gmap strings.

Local Open Scope Z_scope.
Set Warnings "-clear-no-such-hyp".

(** ** Exceptions *)

Inductive exn : Type :=
| ValueError
| ZeroDivisionError.

Inductive result (A : Type) : Type :=
| Ok (a : A)
| Raise (e : exn).

Arguments Ok {A} a.
Arguments Raise {A} e.

Definition rbind {A B} (r : result A) (k : A -> result B) : result B :=
  match r with
  | Ok a => k a
  | Raise e => Raise e
  end.

(** [try: body  except: handler] with a bare [except]. *)
Definition try_except {A} (body : result A) (handler : result A) : result A :=
  match body with
  | Ok a => Ok a
  | Raise _ => handler
  end.

#[global] Instance result_bind : MBind result := fun A B k r => rbind r k.

(** ** Text: the [str] methods and the regular expression used by the scripts *)

Module Text.

Definition NL : ascii := "010"%char.
Definition CR : ascii := "013"%char.

(** A line of a deck as a script reads it: the text and its terminator. *)
Definition line (s : string) : string := s +:+ String NL "".

(** [str.isspace] for one character, on code points below 256; the class
    [\s] of [re] on a [str] pattern is the same set. *)
Definition is_space (c : ascii) : bool :=
  let n := N_of_ascii c in
  (((9 <=? n) && (n <=? 13)) || ((28 <=? n) && (n <=? 31)) || (n =? 32)
   || (n =? 133) || (n =? 160))%N.

Definition is_ascii_digit (c : ascii) : bool :=
  let n := N_of_ascii c in ((48 <=? n) && (n <=? 57))%N.

Definition digit_val (c : ascii) : Z := Z.of_N (N_of_ascii c) - 48.

(** [str.isdigit] for one character: the decimal digits and the
    superscript digits U+00B2, U+00B3, U+00B9. *)
Definition is_digit_char (c : ascii) : bool :=
  let n := N_of_ascii c in
  (is_ascii_digit c || (n =? 178) || (n =? 179) || (n =? 185))%N.

Fixpoint all_chars (p : ascii -> bool) (s : string) : bool :=
  match s with
  | EmptyString => true
  | String c r => p c && all_chars p r
  end.

(** [s.isdigit()] *)
Definition isdigit (s : string) : bool :=
  match s with
  | EmptyString => false
  | _ => all_chars is_digit_char s
  end.

(** [s.lstrip()], [s.rstrip()], [s.strip()] *)
Fixpoint lstrip (s : string) : string :=
  match s with
  | EmptyString => EmptyString
  | String c r => if is_space c then lstrip r else s
  end.

Fixpoint rstrip (s : string) : string :=
  match s with
  | EmptyString => EmptyString
  | String c r =>
      match rstrip r with
      | EmptyString => if is_space c then EmptyString else String c EmptyString
      | r' => String c r'
      end
  end.

Definition strip (s : string) : string := rstrip (lstrip s).

(** [s.startswith(p)] *)
Fixpoint startswith (s p : string) {struct p} : bool :=
  match p, s with
  | EmptyString, _ => true
  | String a p', String b s' => Ascii.eqb a b && startswith s' p'
  | String _ _, EmptyString => false
  end.

(** [s.startswith((p1, ..., pn))] *)
Definition startswith_any (s : string) (ps : list string) : bool :=
  existsb (startswith s) ps.

(** The separator class of [r'[,\s]+']. *)
Definition is_sep (c : ascii) : bool := Ascii.eqb c ","%char || is_space c.

(** [re.split(r'[,\s]+', s)]: the pieces between the maximal runs of
    separators; a run at either end of [s] leaves an empty piece there.
    [prev_sep] tells that the previous character belonged to a run. *)
Fixpoint re_split_go (s : string) (prev_sep : bool) : string * list string :=
  match s with
  | EmptyString => (EmptyString, [])
  | String c r =>
      if is_sep c then
        if prev_sep then re_split_go r true
        else let '(t, ts) := re_split_go r true in (EmptyString, t :: ts)
      else
        let '(t, ts) := re_split_go r false in (String c t, ts)
  end.

Definition re_split (s : string) : list string :=
  let '(t, ts) := re_split_go s false in t :: ts.

(** [s.split()[0]] when [s.split()] is not empty: the first run of
    characters that are not white space. *)
Fixpoint take_word (s : string) : string :=
  match s with
  | EmptyString => EmptyString
  | String c r => if is_space c then EmptyString else String c (take_word r)
  end.

Definition first_word (s : string) : option string :=
  match lstrip s with
  | EmptyString => None
  | s' => Some (take_word s')
  end.

(** [s.split('$')[0]]: the text before the first dollar sign. *)
Fixpoint before_dollar (s : string) : string :=
  match s with
  | EmptyString => EmptyString
  | String c r => if Ascii.eqb c "$"%char then EmptyString else String c (before_dollar r)
  end.

(** ['$' in s] *)
Fixpoint has_dollar (s : string) : bool :=
  match s with
  | EmptyString => false
  | String c r => Ascii.eqb c "$"%char || has_dollar r
  end.

(** [s.upper()].  A lower-case ASCII letter becomes its capital; the sharp
    s (U+00DF) becomes [SS]; the letters U+00E0..U+00FE other than the
    division sign move to U+00C0..U+00DE.  The capitals of U+00B5 and
    U+00FF lie above 255: they are left in place, which like their true
    capitals differ from every ASCII character. *)
Definition upper_char (c : ascii) : string :=
  let n := N_of_ascii c in
  if ((97 <=? n) && (n <=? 122))%N then String (ascii_of_N (n - 32)) EmptyString
  else if (n =? 223)%N then "SS"
  else if ((224 <=? n) && (n <=? 254) && negb (n =? 247))%N
       then String (ascii_of_N (n - 32)) EmptyString
  else String c EmptyString.

Fixpoint upper (s : string) : string :=
  match s with
  | EmptyString => EmptyString
  | String c r => upper_char c +:+ upper r
  end.

(** The value of a run of ASCII digits, most significant first. *)
Fixpoint digits_value (acc : Z) (s : string) : Z :=
  match s with
  | EmptyString => acc
  | String c r => digits_value (10 * acc + digit_val c) r
  end.

(** [int(s)] for an [s] with [s.isdigit()]: the decimal value when every
    character is a decimal digit, [ValueError] otherwise (a superscript
    digit passes [isdigit] and is refused by [int]).  The cap recent
    interpreters put on the number of digits is not modelled. *)
Definition int_of_digits (s : string) : result Z :=
  if all_chars is_ascii_digit s then Ok (digits_value 0 s) else Raise ValueError.

(** Universal newlines on reading: CR LF and a lone CR become LF. *)
Fixpoint universal_newlines (s : string) : string :=
  match s with
  | EmptyString => EmptyString
  | String c r =>
      if Ascii.eqb c CR then
        match r with
        | String d r' => if Ascii.eqb d NL then String NL (universal_newlines r')
                         else String NL (universal_newlines r)
        | EmptyString => String NL EmptyString
        end
      else String c (universal_newlines r)
  end.

(** Cut a text after each LF, keeping the terminators; the last line may
    lack one. *)
Fixpoint cut_lines (s : string) : list string :=
  match s with
  | EmptyString => []
  | String c r =>
      if Ascii.eqb c NL then String c EmptyString :: cut_lines r
      else match cut_lines r with
           | [] => [String c EmptyString]
           | l :: ls => String c l :: ls
           end
  end.

(** A complete line: no CR, and one LF, at the end. *)
Fixpoint is_line (s : string) : bool :=
  match s with
  | EmptyString => false
  | String c r =>
      if Ascii.eqb c NL then match r with EmptyString => true | _ => false end
      else negb (Ascii.eqb c CR) && is_line r
  end.

(** A text without line breaks. *)
Definition no_newline (s : string) : bool :=
  all_chars (fun c => negb (Ascii.eqb c NL) && negb (Ascii.eqb c CR)) s.

(** What [f.readlines()] returns for a file opened in text mode whose
    decoded content is [s]. *)
Definition readlines (s : string) : list string :=
  cut_lines (universal_newlines s).

(** The content of a file after the strings [chunks] were written to it
    in turn.  Writing turns each LF into the line separator of the
    platform and universal newlines turn it back on reading: the text is
    kept with LF. *)
Definition written (chunks : list string) : string :=
  fold_right String.append EmptyString chunks.

End Text.

(** ** Binary64 arithmetic: the [float] operations the scripts use *)

Module PyFloat.

Definition prec : Z := 53.
Definition emax : Z := 1024.

Definition fadd := SFadd prec emax.
Definition fsub := SFsub prec emax.
Definition fmul := SFmul prec emax.
Definition fabs := SFabs.
Definition feqb := SFeqb.
Definition fltb := SFltb.
Definition fleb := SFleb.

Definition fzero : spec_float := S754_zero false.

(** The binary64 number nearest to [num / den] (ties to even), signed by
    [neg].  The quotient is taken with at least 56 significant bits and a
    sticky last bit, which rounds like the exact value. *)
Definition of_ratio (neg : bool) (num den : positive) : spec_float :=
  let k := Z.max 0 (56 + Z.log2 (Zpos den) - Z.log2 (Zpos num)) in
  let n := Zpos num * 2 ^ k in
  let q := n / Zpos den in
  let sticky := if n mod Zpos den =? 0 then 0 else 1 in
  binary_normalize prec emax (cond_Zopp neg (2 * q + sticky)) (- (k + 1)) neg.

(** The value of the decimal numeral [mant * 10^e10], correctly rounded:
    what [float(s)] and a float literal denote. *)
Definition of_decimal (neg : bool) (mant : Z) (e10 : Z) : spec_float :=
  match mant with
  | Zpos m =>
      if 0 <=? e10 then of_ratio neg (m * Z.to_pos (10 ^ e10)) 1
      else of_ratio neg m (Z.to_pos (10 ^ (- e10)))
  | _ => S754_zero neg
  end.

(** [a / b] on two [int]s, [b] not zero: the correctly rounded quotient. *)
Definition int_truediv (a b : Z) : spec_float :=
  match a, b with
  | Zpos p, Zpos q => of_ratio false p q
  | Zneg p, Zneg q => of_ratio false p q
  | Zpos p, Zneg q => of_ratio true p q
  | Zneg p, Zpos q => of_ratio true p q
  | _, _ => S754_zero (b <? 0)
  end.

(** [float(n)] for an [int] [n]. *)
Definition of_int (n : Z) : spec_float := int_truediv n 1.

(** [f.is_integer()] *)
Definition is_integer (f : spec_float) : bool :=
  match f with
  | S754_zero _ => true
  | S754_finite _ m e => (0 <=? e) || (Zpos m mod 2 ^ (- e) =? 0)
  | _ => false
  end.

(** [int(f)] for a finite [f]: truncation toward zero. *)
Definition to_int (f : spec_float) : Z :=
  match f with
  | S754_finite s m e =>
      cond_Zopp s (if 0 <=? e then Zpos m * 2 ^ e else Zpos m / 2 ^ (- e))
  | _ => 0
  end.

(** Nearest integer to [a / b], ties to even, for [0 <= a] and [0 < b]. *)
Definition round_half_even (a b : Z) : Z :=
  let q := a / b in
  let r := a mod b in
  match 2 * r ?= b with
  | Lt => q
  | Gt => q + 1
  | Eq => if Z.even q then q else q + 1
  end.

(** [round(x, ndigits)] for [0 <= ndigits <= 323]: the exact value of
    [x] is rounded half-even to [ndigits] decimals and the decimal result
    is converted back to binary64. *)
Definition round_ndigits (x : spec_float) (ndigits : Z) : spec_float :=
  match x with
  | S754_finite s m e =>
      let scale := 10 ^ ndigits in
      let y := if 0 <=? e then Zpos m * 2 ^ e * scale
               else round_half_even (Zpos m * scale) (2 ^ (- e)) in
      match y with
      | Zpos p => of_ratio s p (Z.to_pos scale)
      | _ => S754_zero s
      end
  | _ => x
  end.

(** [math.isclose(a, b, rel_tol=rel_tol)] with the default [abs_tol] of 0. *)
Definition isclose (a b rel_tol : spec_float) : bool :=
  if feqb a b then true
  else match a, b with
       | S754_infinity _, _ | _, S754_infinity _ => false
       | _, _ =>
           let diff := fabs (fsub b a) in
           fleb diff (fabs (fmul rel_tol b))
           || fleb diff (fabs (fmul rel_tol a))
           || fleb diff fzero
       end.

Import Text.

(** *** [float(s)] on a string *)

(** Underscores may only stand between two digits; they are removed. *)
Fixpoint drop_underscores (prev_digit : bool) (s : string) : option string :=
  match s with
  | EmptyString => Some EmptyString
  | String c r =>
      if Ascii.eqb c "_"%char then
        if prev_digit then
          match r with
          | String d _ => if is_ascii_digit d then drop_underscores false r else None
          | EmptyString => None
          end
        else None
      else option_map (String c) (drop_underscores (is_ascii_digit c) r)
  end.

(** The leading run of ASCII digits: its value continued from [acc], its
    length, and the rest of the string. *)
Fixpoint take_digits (acc : Z) (s : string) : Z * nat * string :=
  match s with
  | String c r =>
      if is_ascii_digit c then
        let '(v, n, rest) := take_digits (10 * acc + digit_val c) r in (v, S n, rest)
      else (acc, O, s)
  | EmptyString => (acc, O, s)
  end.

Definition take_sign (s : string) : bool * string :=
  match s with
  | String c r =>
      if Ascii.eqb c "-"%char then (true, r)
      else if Ascii.eqb c "+"%char then (false, r)
      else (false, s)
  | EmptyString => (false, s)
  end.

Definition lower_char (c : ascii) : ascii :=
  let n := N_of_ascii c in
  if ((65 <=? n) && (n <=? 90))%N then ascii_of_N (n + 32) else c.

Fixpoint lower_ascii (s : string) : string :=
  match s with
  | EmptyString => EmptyString
  | String c r => String (lower_char c) (lower_ascii r)
  end.

(** The exponent part: empty, or [e]/[E], an optional sign and digits. *)
Definition parse_exponent (s : string) : option Z :=
  match s with
  | EmptyString => Some 0
  | String c r =>
      if Ascii.eqb (lower_char c) "e"%char then
        let '(neg, r1) := take_sign r in
        match take_digits 0 r1 with
        | (v, S _, EmptyString) => Some (cond_Zopp neg v)
        | _ => None
        end
      else None
  end.

(** A decimal numeral: digits, an optional point and digits (one digit at
    least in all), an optional exponent. *)
Definition parse_decimal (neg : bool) (s : string) : option spec_float :=
  let '(ip, ni, s1) := take_digits 0 s in
  let '(mant, nf, s2) :=
    match s1 with
    | String c r =>
        if Ascii.eqb c "."%char then take_digits ip r else (ip, O, s1)
    | EmptyString => (ip, O, s1)
    end in
  match (ni + nf)%nat with
  | O => None
  | S _ =>
      match parse_exponent s2 with
      | Some e => Some (of_decimal neg mant (e - Z.of_nat nf))
      | None => None
      end
  end.

Definition parse_float (s : string) : option spec_float :=
  match drop_underscores false s with
  | None => None
  | Some t =>
      let '(neg, body) := take_sign t in
      let low := lower_ascii body in
      if String.eqb low "inf" || String.eqb low "infinity" then Some (S754_infinity neg)
      else if String.eqb low "nan" then Some S754_nan
      else parse_decimal neg body
  end.

(** [float(s)]: white space around the numeral is ignored; anything that
    is not a numeral raises [ValueError].  (Of the white space [strip]
    removes, [float] keeps the separators U+001C..U+001F; every argument
    the scripts pass is stripped or a token of [re.split] and has none.) *)
Definition py_float (s : string) : result spec_float :=
  match parse_float (strip s) with
  | Some f => Ok f
  | None => Raise ValueError
  end.

End PyFloat.

(** ** s1.py: extraction of the components of the odd Parts *)

Module S1.
Import Text PyFloat.

(** The body of [safe_int], inside its [try]. *)
Definition safe_int_try (value : string) : result (option Z) :=
  let s := strip value in
  if isdigit s then
    n ← int_of_digits s; Ok (Some n)
  else
    f ← py_float s;
    if is_integer f then Ok (Some (to_int f)) else Ok None.

(** [safe_int] with its bare [except: return None]. *)
Definition safe_int_result (value : string) : result (option Z) :=
  try_except (safe_int_try value) (Ok None).

(** The value [safe_int] returns ([None] is Python's [None]). *)
Definition safe_int (value : string) : option Z :=
  match safe_int_result value with
  | Ok r => r
  | Raise _ => None
  end.

(** [n % 2 != 0], with Python's sign convention for [%]. *)
Definition is_odd (n : Z) : bool := negb (n mod 2 =? 0).

Definition element_keywords : list string :=
  ["*ELEMENT_SHELL"; "*ELEMENT_SOLID"; "*ELEMENT_BEAM";
   "*ELEMENT_TSHELL"; "*ELEMENT_DISCRETE"; "*ELEMENT_MASS"].

Definition section_keywords : list string :=
  ["*SECTION_SHELL"; "*SECTION_BEAM"; "*SECTION_SOLID"; "*SECTION_DISCRETE"].

(** The three sets filled by pass 1. *)
Record keep_sets : Type := KeepSets {
  keep_pids : gset Z;
  keep_sec_ids : gset Z;
  keep_mat_ids : gset Z
}.

Definition no_keep : keep_sets := KeepSets ∅ ∅ ∅.

#[global] Instance keep_sets_eq_dec : EqDecision keep_sets.
Proof. solve_decision. Defined.

Definition is_header (l : string) : bool := startswith (strip l) "*".
Definition is_comment (l : string) : bool := startswith (strip l) "$".

(** *** Pass 1: the odd Parts, their Sections and Materials *)

(** The data line of a Part: PID, SECID, MID. *)
Definition part_data (tokens : list string) (k : keep_sets) : keep_sets :=
  match tokens with
  | [] => k
  | t0 :: ts =>
      match safe_int t0 with
      | Some pid =>
          if is_odd pid then
            let secs :=
              match ts with
              | t1 :: _ =>
                  match safe_int t1 with
                  | Some sid => {[sid]} ∪ keep_sec_ids k
                  | None => keep_sec_ids k
                  end
              | [] => keep_sec_ids k
              end in
            let mats :=
              match ts with
              | _ :: t2 :: _ =>
                  match safe_int t2 with
                  | Some mid => {[mid]} ∪ keep_mat_ids k
                  | None => keep_mat_ids k
                  end
              | _ => keep_mat_ids k
              end in
            KeepSets ({[pid]} ∪ keep_pids k) secs mats
          else k
      | None => k
      end
  end.

(** [for offset in range(1, 5)]: [fuel] offsets remain and [rest] starts
    at [lines[i+offset]].  The loop stops at the end of the file, at a
    header, and after the first line that is not a comment. *)
Fixpoint part_lookahead (fuel : nat) (rest : list string) (k : keep_sets) : keep_sets :=
  match fuel, rest with
  | S f, l :: rest' =>
      if is_header l then k
      else if is_comment l then part_lookahead f rest' k
      else part_data (re_split (strip l)) k
  | _, _ => k
  end.

(** The [while i < n] loop of pass 1; [ls] starts at [lines[i]]. *)
Fixpoint pass1_loop (ls : list string) (k : keep_sets) : keep_sets :=
  match ls with
  | [] => k
  | l :: rest =>
      pass1_loop rest
        (if startswith (strip l) "*PART" then part_lookahead 4 rest k else k)
  end.

Definition pass1 (lines : list string) : keep_sets := pass1_loop lines no_keep.

(** *** Pass 2: the Nodes of the elements of the kept Parts *)

(** [for t in tokens[start_index:]] *)
Fixpoint add_node_ids (ts : list string) (nodes : gset Z) : gset Z :=
  match ts with
  | [] => nodes
  | t :: ts' =>
      add_node_ids ts'
        (match safe_int t with
         | Some nid => {[nid]} ∪ nodes
         | None => nodes
         end)
  end.

(** One data line of an element block whose header, stripped, is [hdr]. *)
Definition element_line_nodes (pids : gset Z) (hdr : string)
    (tokens : list string) (nodes : gset Z) : gset Z :=
  match tokens with
  | _ :: t1 :: ((_ :: _) as tail) =>
      match safe_int t1 with
      | Some pid =>
          if decide (pid ∈ pids) then
            if startswith hdr "*ELEMENT_MASS" then nodes
            else add_node_ids tail nodes
          else nodes
      | None => nodes
      end
  | _ => nodes
  end.

(** The inner [while j < n] loop; [ls] starts at [lines[j]].  It returns
    the nodes and the lines from [lines[j]] on when it stops. *)
Fixpoint element_block_nodes (pids : gset Z) (hdr : string) (ls : list string)
    (nodes : gset Z) : gset Z * list string :=
  match ls with
  | [] => (nodes, [])
  | l :: rest =>
      if is_header l then (nodes, ls)
      else if is_comment l then element_block_nodes pids hdr rest nodes
      else element_block_nodes pids hdr rest
             (element_line_nodes pids hdr (re_split (strip l)) nodes)
  end.

(** The outer [while i < n] loop; each turn advances [i], so [length lines]
    turns are enough. *)
Fixpoint pass2_loop (fuel : nat) (pids : gset Z) (ls : list string)
    (nodes : gset Z) : gset Z :=
  match fuel, ls with
  | S f, l :: rest =>
      let hdr := strip l in
      if startswith_any hdr element_keywords then
        let '(nodes', rest') := element_block_nodes pids hdr rest nodes in
        pass2_loop f pids rest' nodes'
      else pass2_loop f pids rest nodes
  | _, _ => nodes
  end.

Definition pass2 (pids : gset Z) (lines : list string) : gset Z :=
  pass2_loop (length lines) pids lines ∅.

(** *** Pass 3: the lines written to the output file *)

(** The first token of a data line, as an id found in [keep]. *)
Definition first_id_in (keep : gset Z) (l : string) : bool :=
  match re_split (strip l) with
  | t0 :: _ =>
      match safe_int t0 with
      | Some x => bool_decide (x ∈ keep)
      | None => false
      end
  | [] => false
  end.

(** A standard element line: more than two tokens, the second a kept Part. *)
Definition element_line_kept (pids : gset Z) (l : string) : bool :=
  match re_split (strip l) with
  | _ :: t1 :: _ :: _ =>
      match safe_int t1 with
      | Some pid => bool_decide (pid ∈ pids)
      | None => false
      end
  | _ => false
  end.

(** A mass element line: more than one token, the second a kept Node. *)
Definition mass_line_kept (nodes : gset Z) (l : string) : bool :=
  match re_split (strip l) with
  | _ :: t1 :: _ =>
      match safe_int t1 with
      | Some nid => bool_decide (nid ∈ nodes)
      | None => false
      end
  | _ => false
  end.

(** The inner loop of the Node, element and mass-element branches: comments
    are written, a data line is written when [kept] holds of it.  Returns
    the lines written and the lines from [lines[j]] on. *)
Fixpoint filter_block (kept : string -> bool) (ls : list string)
    : list string * list string :=
  match ls with
  | [] => ([], [])
  | l :: rest =>
      if is_header l then ([], ls)
      else
        let '(out, rest') := filter_block kept rest in
        if is_comment l then (l :: out, rest')
        else if kept l then (l :: out, rest')
        else (out, rest')
  end.

(** The inner loop of the Part, Section and Material branches: every line
    up to the next header is buffered; the block is a target once a line
    that is not a comment starts with a kept id.  Returns the buffered
    lines, the flag and the lines from [lines[j]] on. *)
Fixpoint buffer_block (keep : gset Z) (ls : list string) (is_target : bool)
    : list string * bool * list string :=
  match ls with
  | [] => ([], is_target, [])
  | l :: rest =>
      if is_header l then ([], is_target, ls)
      else
        let is_target' :=
          if negb (is_comment l) && negb is_target
          then first_id_in keep l else is_target in
        let '(buf, t, rest') := buffer_block keep rest is_target' in
        (l :: buf, t, rest')
  end.

(** The outer loop of pass 3. *)
Fixpoint pass3_loop (fuel : nat) (k : keep_sets) (nodes : gset Z)
    (ls : list string) : list string :=
  match fuel, ls with
  | S f, l :: rest =>
      let line_strip := strip l in
      if startswith line_strip "*NODE" then
        let '(out, rest') := filter_block (first_id_in nodes) rest in
        l :: out ++ pass3_loop f k nodes rest'
      else if startswith_any line_strip element_keywords
              && negb (startswith line_strip "*ELEMENT_MASS") then
        let '(out, rest') := filter_block (element_line_kept (keep_pids k)) rest in
        l :: out ++ pass3_loop f k nodes rest'
      else if startswith line_strip "*ELEMENT_MASS" then
        let '(out, rest') := filter_block (mass_line_kept nodes) rest in
        l :: out ++ pass3_loop f k nodes rest'
      else if startswith line_strip "*PART" then
        let '(buf, is_target_part, rest') := buffer_block (keep_pids k) rest false in
        (if is_target_part then l :: buf else []) ++ pass3_loop f k nodes rest'
      else if startswith_any line_strip section_keywords then
        let '(buf, is_target_sec, rest') := buffer_block (keep_sec_ids k) rest false in
        (if is_target_sec then l :: buf else []) ++ pass3_loop f k nodes rest'
      else if startswith line_strip "*MAT_" then
        let '(buf, is_target_mat, rest') := buffer_block (keep_mat_ids k) rest false in
        (if is_target_mat then l :: buf else []) ++ pass3_loop f k nodes rest'
      else pass3_loop f k nodes rest
  | _, _ => []
  end.

Definition pass3 (k : keep_sets) (nodes : gset Z) (lines : list string) : list string :=
  pass3_loop (length lines) k nodes lines.

(** The three lines written before the blocks; [name] is
    [os.path.basename(input_file)]. *)
Definition file_header (name : string) : list string :=
  [line "*KEYWORD";
   line ("$ Extracted Odd Components from " +:+ name);
   line "$ Proper DYNA File for Visualization"].

Definition file_footer : list string := [line "*END"].

(** [extract_odd_components], on the lines read from the input file: the
    strings written to the output file in order, or [None] when the
    function returns before opening it (no odd Part). *)
Definition extract_odd_components (name : string) (lines : list string)
    : option (list string) :=
  let k := pass1 lines in
  if decide (keep_pids k = ∅) then None
  else
    let nodes := pass2 (keep_pids k) lines in
    Some (file_header name ++ pass3 k nodes lines ++ file_footer).

(** The same on file contents: the input is read with [readlines()], the
    output is what the file holds when it is closed. *)
Definition extract_file (name : string) (text : string) : option string :=
  written <$> extract_odd_components name (readlines text).

(** *** The deck as blocks *)

(** The lines before the first header, and the blocks: each header with
    the lines up to the next header. *)
Fixpoint blocks_of (ls : list string) : list string * list (string * list string) :=
  match ls with
  | [] => ([], [])
  | l :: rest =>
      let '(pre, bs) := blocks_of rest in
      if is_header l then ([], (l, pre) :: bs) else (l :: pre, bs)
  end.

Definition deck_blocks (ls : list string) : list (string * list string) :=
  (blocks_of ls).2.


(** The header of a block of standard elements. *)
Definition is_element_header (h : string) : bool :=
  startswith_any (strip h) element_keywords
  && negb (startswith (strip h) "*ELEMENT_MASS").

(** The records of a block: its lines that are not comments. *)
Definition data_lines (d : list string) : list string :=
  List.filter (fun l => negb (is_comment l)) d.

(** The id a record starts with. *)
Definition first_id (l : string) : option Z :=
  match re_split (strip l) with
  | t0 :: _ => safe_int t0
  | [] => None
  end.


(** The element records of a deck. *)
Definition element_records (ls : list string) : list string :=
  b ← deck_blocks ls; if is_element_header b.1 then data_lines b.2 else [].


End S1.

(** ** ss1.py: thickness of every Part, compared over all pairs of files *)

Module SS1.
Import Text PyFloat.

(** [CONFIG["TOLERANCE"]], the literal [0.001]. *)
Definition TOLERANCE : spec_float := of_decimal false 1 (-3).

(** [safe_float]: [float(s)], or [0.0] when it raises. *)
Definition safe_float_result (s : string) : result spec_float :=
  try_except (py_float s) (Ok fzero).

Definition safe_float (s : string) : spec_float :=
  match safe_float_result s with
  | Ok f => f
  | Raise _ => fzero
  end.

(** [get_numeric_line]: the first two tokens as integers when both pass
    [isdigit]; the calls of [int] are not guarded. *)
Definition get_numeric_line (line : string) : result (option (Z * Z)) :=
  let line := if has_dollar line then before_dollar line else line in
  let tokens := List.filter (fun t => negb (String.eqb t "")) (re_split (strip line)) in
  match tokens with
  | t0 :: t1 :: _ =>
      if isdigit t0 && isdigit t1 then
        a ← int_of_digits t0; b ← int_of_digits t1; Ok (Some (a, b))
      else Ok None
  | _ => Ok None
  end.

(** An entry of [data["parts"]]. *)
Record part : Type := Part {
  name : string;
  secid : Z;
  value : spec_float
}.

(** The dictionary [data] of [parse_deep_search]. *)
Record deck_data : Type := DeckData {
  parts : gmap Z part;
  sections : gmap Z spec_float
}.

Definition no_data : deck_data := DeckData ∅ ∅.

(** The look-ahead of the Part branch.  [offset] is the loop variable,
    [prev] is [lines[i+offset-1]] and [rest] starts at [lines[i+offset]];
    [fuel] offsets remain.  Returns the ids found, if any, and the name. *)
Fixpoint part_scan (fuel : nat) (offset : Z) (prev : string) (rest : list string)
    (part_name : string) : result (option (Z * Z) * string) :=
  match fuel, rest with
  | S f, l :: rest' =>
      let look_line := strip l in
      if startswith look_line "*" then Ok (None, part_name)
      else if startswith look_line "$" then part_scan f (offset + 1) l rest' part_name
      else
        ids ← get_numeric_line look_line;
        match ids with
        | Some found =>
            Ok (Some found,
                if 1 <? offset then
                  let prev_line := strip prev in
                  if startswith prev_line "$" then part_name else prev_line
                else part_name)
        | None =>
            part_scan f (offset + 1) l rest'
              (if offset =? 1 then look_line else part_name)
        end
  | _, _ => Ok (None, part_name)
  end.

(** The Part branch at a header [hdr] followed by [rest]. *)
Definition parse_part (hdr : string) (rest : list string) (d : deck_data)
    : result deck_data :=
  r ← part_scan 4 1 hdr rest "Unknown";
  match r with
  | (Some (found_pid, found_secid), part_name) =>
      Ok (DeckData (<[found_pid := Part part_name found_secid fzero]> (parts d))
                   (sections d))
  | (None, _) => Ok d
  end.

(** [while next_data_idx < n]: the first token of the next data line. *)
Fixpoint thickness_scan (ls : list string) : option spec_float :=
  match ls with
  | [] => None
  | l :: rest =>
      let nl := strip l in
      if startswith nl "*" then None
      else if String.eqb nl "" || startswith nl "$" then thickness_scan rest
      else match re_split nl with
           | t0 :: _ => Some (safe_float t0)
           | [] => None
           end
  end.

(** The look-ahead of the two Section branches (the same code twice). *)
Fixpoint section_scan (fuel : nat) (rest : list string) (secs : gmap Z spec_float)
    : result (gmap Z spec_float) :=
  match fuel, rest with
  | S f, l :: rest' =>
      let l' := strip l in
      if startswith l' "*" then Ok secs
      else if startswith l' "$" then section_scan f rest' secs
      else match re_split l' with
           | t0 :: _ =>
               if isdigit t0 then
                 sid ← int_of_digits t0;
                 Ok (match thickness_scan rest' with
                     | Some val => <[sid := val]> secs
                     | None => secs
                     end)
               else section_scan f rest' secs
           | [] => section_scan f rest' secs
           end
  | _, _ => Ok secs
  end.

Definition parse_section (rest : list string) (d : deck_data) : result deck_data :=
  secs ← section_scan 4 rest (sections d); Ok (DeckData (parts d) secs).

(** One turn of [for i, line in enumerate(lines)]. *)
Definition parse_line (l : string) (rest : list string) (d : deck_data)
    : result deck_data :=
  let line_strip := strip l in
  if String.eqb line_strip "" || startswith line_strip "$" then Ok d
  else if startswith line_strip "*" then
    match first_word line_strip with
    | Some w =>
        let keyword := upper w in
        if startswith keyword "*PART" then parse_part l rest d
        else if startswith keyword "*SECTION_SHELL" then parse_section rest d
        else if startswith keyword "*SECTION_BEAM" then parse_section rest d
        else Ok d
    | None => Ok d
    end
  else Ok d.

Fixpoint parse_loop (ls : list string) (d : deck_data) : result deck_data :=
  match ls with
  | [] => Ok d
  | l :: rest => d' ← parse_line l rest d; parse_loop rest d'
  end.

(** "Link Sections to Parts" *)
Definition link_part (secs : gmap Z spec_float) (p : part) : part :=
  match secs !! secid p with
  | Some v => Part (name p) (secid p) v
  | None => p
  end.

Definition link (d : deck_data) : deck_data :=
  DeckData (link_part (sections d) <$> parts d) (sections d).

(** [parse_deep_search] on the lines of the file. *)
Definition parse_deep_search (lines : list string) : result deck_data :=
  d ← parse_loop lines no_data; Ok (link d).

(** [worker]: the parsed data, or [None] when parsing raised. *)
Definition worker (lines : list string) : option deck_data :=
  match parse_deep_search lines with
  | Ok d => Some d
  | Raise _ => None
  end.

(** The test of [main] on the two values of a common Part. *)
Definition differs (val_a val_b : spec_float) : bool :=
  fltb TOLERANCE (fabs (fsub val_a val_b))
  && (fltb fzero val_a || fltb fzero val_b).

(** The list [changes] for one pair of files.  Python iterates the set
    [common_pids] in an unspecified order; here it is [elements]. *)
Definition changes (data_a data_b : deck_data)
    : list (Z * string * spec_float * spec_float) :=
  let common_pids := dom (parts data_a) ∩ dom (parts data_b) in
  omap (fun pid =>
          match parts data_a !! pid, parts data_b !! pid with
          | Some pa, Some pb =>
              if differs (value pa) (value pb)
              then Some (pid, name pa, value pa, value pb) else None
          | _, _ => None
          end)
       (elements common_pids).

(** What the specification asks of the flag: the difference exceeds the
    tolerance and one of the two values is not zero. *)
Definition spec_differs (val_a val_b : spec_float) : bool :=
  fltb TOLERANCE (fabs (fsub val_a val_b))
  && (negb (feqb val_a fzero) || negb (feqb val_b fzero)).

End SS1.

(** ** similarity.py: the similarity engine *)

(** A [dict] as the list of its items in insertion order; [eqb] is the
    equality of keys ([==]).  Assigning to a key that is present replaces
    the value and keeps the key and its place; assigning to a new key
    appends the item. *)
Module Dict.
Section Dict.
Context {K V : Type} (eqb : K -> K -> bool).

Fixpoint get (d : list (K * V)) (k : K) : option V :=
  match d with
  | [] => None
  | (k', v) :: d' => if eqb k' k then Some v else get d' k
  end.

Fixpoint set (d : list (K * V)) (k : K) (v : V) : list (K * V) :=
  match d with
  | [] => [(k, v)]
  | (k', v') :: d' => if eqb k' k then (k', v) :: d' else (k', v') :: set d' k v
  end.

Definition has_key (d : list (K * V)) (k : K) : bool :=
  match get d k with
  | Some _ => true
  | None => false
  end.

Definition keys (d : list (K * V)) : list K := map fst d.

End Dict.
End Dict.

Module Similarity.
Import Text PyFloat.

(** The values a field of a card can hold. *)
Inductive pyval : Type :=
| VNone
| VBool (b : bool)
| VInt (n : Z)
| VFloat (f : spec_float)
| VStr (s : string).

(** The exact value of a number: zero, an infinity, or [m * 2^e] with
    [m] odd, signed. *)
Inductive number : Type :=
| NumZero
| NumInf (neg : bool)
| NumFin (neg : bool) (m : positive) (e : Z).

(** [m * 2^e] with the factors two of [m] moved into the exponent. *)
Fixpoint odd_part (m : positive) (e : Z) : positive * Z :=
  match m with
  | xO p => odd_part p (e + 1)
  | _ => (m, e)
  end.

Definition number_of_int (n : Z) : number :=
  match n with
  | Z0 => NumZero
  | Zpos p => let '(m, e) := odd_part p 0 in NumFin false m e
  | Zneg p => let '(m, e) := odd_part p 0 in NumFin true m e
  end.

(** The value of a float; a NaN has none. *)
Definition number_of_float (f : spec_float) : option number :=
  match f with
  | S754_zero _ => Some NumZero
  | S754_infinity s => Some (NumInf s)
  | S754_nan => None
  | S754_finite s m e => let '(m', e') := odd_part m e in Some (NumFin s m' e')
  end.

(** What [==] compares: [None], the text of a string, or the exact value
    of a number ([bool], [int] and [float] alike). *)
Inductive eq_key : Type :=
| KeyNone
| KeyStr (s : string)
| KeyNum (n : number).

#[global] Instance number_eq_dec : EqDecision number.
Proof. solve_decision. Defined.

#[global] Instance eq_key_eq_dec : EqDecision eq_key.
Proof. solve_decision. Defined.

Definition eq_key_of (v : pyval) : option eq_key :=
  match v with
  | VNone => Some KeyNone
  | VBool b => Some (KeyNum (number_of_int (if b then 1 else 0)))
  | VInt n => Some (KeyNum (number_of_int n))
  | VFloat f => KeyNum <$> number_of_float f
  | VStr s => Some (KeyStr s)
  end.

(** [a == b]: equal keys; a NaN is equal to nothing, itself included. *)
Definition py_eq (a b : pyval) : bool :=
  match eq_key_of a, eq_key_of b with
  | Some x, Some y => bool_decide (x = y)
  | _, _ => false
  end.

(** A keyword card of the [KeyFile] object, through the three members the
    engine uses: [get_keyword_name()], [field_names] and [kw[name]]. *)
Record keyword : Type := Keyword {
  get_keyword_name : string;
  field_names : list string;
  getitem : string -> pyval
}.

(** [keyfile.keywords] *)
Definition keyfile : Type := list keyword.

Definition fields_dict : Type := list (string * pyval).
Definition cards_dict : Type := list (pyval * fields_dict).
Definition canonical : Type := list (string * cards_dict).

Definition id_fields : list string := ["id"; "pid"; "mid"; "secid"; "eid"; "nid"].

(** [field in kw.field_names] *)
Definition has_field (kw : keyword) (field : string) : bool :=
  existsb (String.eqb field) (field_names kw).

(** The identifier of a card: the value of its first id field, or
    ["Global"]. *)
Definition card_id (kw : keyword) : pyval :=
  match List.find (has_field kw) id_fields with
  | Some field => getitem kw field
  | None => VStr "Global"
  end.

(** The accuracy layer. *)
Definition normalize (raw_val : pyval) : pyval :=
  match raw_val with
  | VFloat f => VFloat (round_ndigits f 6)
  | VStr s => VStr (strip s)
  | _ => raw_val
  end.

(** The dictionary [fields] of one card. *)
Definition card_fields (kw : keyword) : fields_dict :=
  fold_left
    (fun fields name => Dict.set String.eqb fields name (normalize (getitem kw name)))
    (field_names kw) [].

(** [data[kw_name][card_id] = fields] on the [defaultdict(dict)]. *)
Definition canon_step (data : canonical) (kw : keyword) : canonical :=
  let kw_name := get_keyword_name kw in
  let cards := default [] (Dict.get String.eqb data kw_name) in
  Dict.set String.eqb data kw_name (Dict.set py_eq cards (card_id kw) (card_fields kw)).

(** [_canonicalize] *)
Definition canonicalize (kf : keyfile) : canonical := fold_left canon_step kf [].

(** [set(data.keys())] *)
Definition keywords_of (data : canonical) : gset string :=
  list_to_set (Dict.keys data).

(** The literals of [calculate_score]. *)
Definition REL_TOL : spec_float := of_decimal false 1 (-5).
Definition W_STRUCT : spec_float := of_decimal false 2 (-1).
Definition W_PARAM : spec_float := of_decimal false 8 (-1).
Definition HUNDRED : spec_float := of_int 100.

(** The test on one field: equal, or two floats that are close. *)
Definition field_matches (r_val t_val : pyval) : bool :=
  if py_eq r_val t_val then true
  else match r_val, t_val with
       | VFloat r, VFloat t => isclose r t REL_TOL
       | _, _ => false
       end.

(** [set(ref_cards.keys()).intersection(tgt_cards.keys())]: the keys of
    the target that the reference has. *)
Definition common_ids (ref_cards tgt_cards : cards_dict) : list pyval :=
  List.filter (Dict.has_key py_eq ref_cards) (Dict.keys tgt_cards).

(** The two counters, [(total_fields, matching_fields)]. *)
Definition counters : Type := (Z * Z)%type.

(** The body of [for field, r_val in ref_vals.items()]. *)
Definition count_field (tgt_vals : fields_dict) (c : counters)
    (item : string * pyval) : counters :=
  let '(total_fields, matching_fields) := c in
  let '(field, r_val) := item in
  let t_val := default VNone (Dict.get String.eqb tgt_vals field) in
  (total_fields + 1,
   if field_matches r_val t_val then matching_fields + 1 else matching_fields).

(** The body of [for cid in common_ids]. *)
Definition count_card (ref_cards tgt_cards : cards_dict) (c : counters)
    (cid : pyval) : counters :=
  let ref_vals := default [] (Dict.get py_eq ref_cards cid) in
  let tgt_vals := default [] (Dict.get py_eq tgt_cards cid) in
  fold_left (count_field tgt_vals) ref_vals c.

(** The body of [for kw in intersection]. *)
Definition count_keyword (ref_data tgt_data : canonical) (c : counters)
    (kw : string) : counters :=
  let ref_cards := default [] (Dict.get String.eqb ref_data kw) in
  let tgt_cards := default [] (Dict.get String.eqb tgt_data kw) in
  fold_left (count_card ref_cards tgt_cards) (common_ids ref_cards tgt_cards) c.

(** The counters after the loops.  Python iterates the set [intersection]
    in an unspecified order; here it is [elements]. *)
Definition count_fields (ref_data tgt_data : canonical) : counters :=
  fold_left (count_keyword ref_data tgt_data)
    (elements (keywords_of ref_data ∩ keywords_of tgt_data)) (0, 0).

Definition struct_score (ref_data tgt_data : canonical) : spec_float :=
  let intersection := keywords_of ref_data ∩ keywords_of tgt_data in
  let union := keywords_of ref_data ∪ keywords_of tgt_data in
  if decide (union = ∅) then fzero
  else int_truediv (Z.of_nat (size intersection)) (Z.of_nat (size union)).

Definition param_score (ref_data tgt_data : canonical) : spec_float :=
  let '(total_fields, matching_fields) := count_fields ref_data tgt_data in
  if 0 <? total_fields then int_truediv matching_fields total_fields else fzero.

(** The weighted score as a percentage with two decimals. *)
Definition final_percent (s p : spec_float) : spec_float :=
  round_ndigits (fmul (fadd (fmul W_STRUCT s) (fmul W_PARAM p)) HUNDRED) 2.

(** [calculate_score] for a reference and a target that both parsed. *)
Definition calculate_score (ref tgt : keyfile) : spec_float :=
  let ref_data := canonicalize ref in
  let tgt_data := canonicalize tgt in
  final_percent (struct_score ref_data tgt_data) (param_score ref_data tgt_data).

(** *** The specification's words *)

(** The keyword names present in a deck. *)
Definition keyword_names (kf : keyfile) : gset string :=
  list_to_set (map get_keyword_name kf).


(** The pairs (reference value, target value) of the fields to compare:
    every field of the reference's record, for every keyword in both
    models and every id in both. *)
Definition compared_fields (ref_data tgt_data : canonical) : list (pyval * pyval) :=
  kw ← elements (keywords_of ref_data ∩ keywords_of tgt_data);
  let ref_cards := default [] (Dict.get String.eqb ref_data kw) in
  let tgt_cards := default [] (Dict.get String.eqb tgt_data kw) in
  cid ← common_ids ref_cards tgt_cards;
  let ref_vals := default [] (Dict.get py_eq ref_cards cid) in
  let tgt_vals := default [] (Dict.get py_eq tgt_cards cid) in
  item ← ref_vals;
  [(item.2, default VNone (Dict.get String.eqb tgt_vals item.1))].

Definition values_equal (r t : pyval) : bool := py_eq r t.

Definition close_floats (r t : pyval) : bool :=
  match r, t with
  | VFloat a, VFloat b => isclose a b REL_TOL
  | _, _ => false
  end.


(** A pair matches: the values are equal, or both are floats within the
    relative tolerance. *)
Definition spec_matches (p : pyval * pyval) : bool :=
  values_equal p.1 p.2 || close_floats p.1 p.2.



End Similarity.

(** * Properties *)

(** ** Text *)

Module TextFacts.
Import Text.

Lemma lstrip_cons c r : is_space c = false -> lstrip (String c r) = String c r.
Proof. intros H. simpl. now rewrite H. Qed.

Lemma rstrip_cons c r :
  is_space c = false -> exists r', rstrip (String c r) = String c r'.
Proof.
  intros H. simpl. destruct (rstrip r) as [|d r'].
  - rewrite H. now exists EmptyString.
  - now exists (String d r').
Qed.

Lemma strip_cons c r :
  is_space c = false -> exists r', strip (String c r) = String c r'.
Proof.
  intros H. unfold strip. rewrite lstrip_cons by assumption.
  now apply rstrip_cons.
Qed.

Lemma startswith_cons c r p :
  startswith (String c r) (String c p) = startswith r p.
Proof. simpl. now rewrite Ascii.eqb_refl. Qed.

Lemma startswith_trans s p q :
  startswith s p = true -> startswith p q = true -> startswith s q = true.
Proof.
  revert s p. induction q as [|c q IH]; intros s p Hsp Hpq.
  - now destruct s.
  - destruct p as [|b p]; [discriminate|].
    destruct s as [|a s]; [discriminate|].
    simpl in *. apply andb_true_iff in Hsp as [Hab Hsp].
    apply andb_true_iff in Hpq as [Hcb Hpq].
    apply Ascii.eqb_eq in Hab. apply Ascii.eqb_eq in Hcb. subst.
    rewrite Ascii.eqb_refl. simpl. eauto.
Qed.

(** Two prefixes of one string are comparable. *)
Lemma startswith_comparable s p q :
  startswith s p = true -> startswith s q = true ->
  startswith p q = true \/ startswith q p = true.
Proof.
  revert p q. induction s as [|a s IH]; intros p q Hp Hq.
  - destruct p; [|discriminate]. right. now destruct q.
  - destruct p as [|b p]; [right; now destruct q|].
    destruct q as [|c q]; [now left|].
    simpl in Hp, Hq.
    apply andb_true_iff in Hp as [Hb Hp]. apply andb_true_iff in Hq as [Hc Hq].
    apply Ascii.eqb_eq in Hb. apply Ascii.eqb_eq in Hc. subst.
    simpl. rewrite Ascii.eqb_refl. simpl. now apply IH.
Qed.

Lemma is_line_no_CR_head c r :
  is_line (String c r) = true -> Ascii.eqb c CR = false.
Proof.
  simpl. destruct (Ascii.eqb c NL) eqn:E.
  - apply Ascii.eqb_eq in E. now subst.
  - intros H. apply andb_true_iff in H as [H _]. now destruct (Ascii.eqb c CR).
Qed.

Lemma universal_newlines_line l rest :
  is_line l = true ->
  universal_newlines (l +:+ rest) = l +:+ universal_newlines rest.
Proof.
  induction l as [|c r IH]; [discriminate|]. intros H.
  pose proof (is_line_no_CR_head _ _ H) as Hc.
  change (String c r +:+ rest) with (String c (r +:+ rest)).
  cbn [universal_newlines]. rewrite Hc.
  simpl in H. destruct (Ascii.eqb c NL) eqn:E.
  - destruct r; [|discriminate]. reflexivity.
  - apply andb_true_iff in H as [_ H]. rewrite IH by assumption. reflexivity.
Qed.

Lemma cut_lines_line l rest :
  is_line l = true -> cut_lines (l +:+ rest) = l :: cut_lines rest.
Proof.
  induction l as [|c r IH]; [discriminate|]. intros H.
  simpl in H. simpl. destruct (Ascii.eqb c NL) eqn:E.
  - destruct r; [|discriminate]. reflexivity.
  - apply andb_true_iff in H as [_ H]. now rewrite IH.
Qed.

(** Reading back what was written returns the lines, when each line is
    complete. *)
Lemma readlines_written ls :
  forallb is_line ls = true -> readlines (written ls) = ls.
Proof.
  unfold readlines. induction ls as [|l ls IH]; [reflexivity|].
  simpl. intros H. apply andb_true_iff in H as [Hl Hls].
  rewrite universal_newlines_line, cut_lines_line by assumption.
  f_equal. now apply IH.
Qed.

Lemma is_line_app s t :
  no_newline s = true -> is_line t = true -> is_line (s +:+ t) = true.
Proof.
  unfold no_newline. induction s as [|c s IH]; [easy|].
  simpl. intros H Ht. apply andb_true_iff in H as [Hc Hs].
  apply andb_true_iff in Hc as [Hn Hr].
  destruct (Ascii.eqb c NL); [discriminate|].
  destruct (Ascii.eqb c CR); [discriminate|]. simpl. now apply IH.
Qed.

Lemma is_line_line s : no_newline s = true -> is_line (line s) = true.
Proof. intros H. unfold line. now apply is_line_app. Qed.

End TextFacts.

(** ** Extraction *)

Module S1Facts.
Import Text TextFacts S1.

#[local] Arguments startswith : simpl never.
#[local] Arguments strip : simpl never.

(** *** Headers *)

Inductive kind : Type := KNode | KElement | KMass | KPart | KSection | KMaterial | KOther.

(** The branch of pass 3 a line takes. *)
Definition kind_of (l : string) : kind :=
  let line_strip := strip l in
  if startswith line_strip "*NODE" then KNode
  else if startswith_any line_strip element_keywords
          && negb (startswith line_strip "*ELEMENT_MASS") then KElement
  else if startswith line_strip "*ELEMENT_MASS" then KMass
  else if startswith line_strip "*PART" then KPart
  else if startswith_any line_strip section_keywords then KSection
  else if startswith line_strip "*MAT_" then KMaterial
  else KOther.

Lemma startswith_any_true s ps :
  startswith_any s ps = true -> exists p, In p ps /\ startswith s p = true.
Proof. unfold startswith_any. intros H. now apply existsb_exists in H. Qed.

Ltac clash H1 H2 :=
  destruct (startswith_comparable _ _ _ H1 H2) as [?Hc | ?Hc];
  vm_compute in Hc; discriminate Hc.

Lemma not_header_kind l : is_header l = false -> kind_of l = KOther.
Proof.
  unfold is_header, kind_of. intros H.
  assert (Hno : forall p, startswith p "*" = true -> startswith (strip l) p = false).
  { intros p Hp. destruct (startswith (strip l) p) eqn:E; [|reflexivity].
    rewrite (startswith_trans _ _ _ E Hp) in H. discriminate. }
  assert (Hany : forall ps, forallb (fun p => startswith p "*") ps = true ->
                            startswith_any (strip l) ps = false).
  { intros ps Hps. unfold startswith_any.
    destruct (existsb (startswith (strip l)) ps) eqn:E; [|reflexivity].
    apply existsb_exists in E as (p & Hin & E).
    rewrite forallb_forall in Hps. rewrite (Hno p (Hps p Hin)) in E. discriminate. }
  rewrite !Hno by reflexivity. rewrite !Hany by reflexivity. reflexivity.
Qed.

Lemma kind_header l : kind_of l <> KOther -> is_header l = true.
Proof.
  intros H. destruct (is_header l) eqn:E; [reflexivity|].
  now apply not_header_kind in E.
Qed.

Lemma part_prefix_kind l :
  startswith (strip l) "*PART" = (match kind_of l with KPart => true | _ => false end).
Proof.
  unfold kind_of.
  destruct (startswith (strip l) "*PART") eqn:HP.
  - destruct (startswith (strip l) "*NODE") eqn:HN; [clash HP HN|].
    destruct (startswith_any (strip l) element_keywords) eqn:HE.
    { apply startswith_any_true in HE as (p & Hin & HE).
      simpl in Hin.
      repeat (destruct Hin as [<- | Hin]; [clash HP HE|]). destruct Hin. }
    simpl.
    destruct (startswith (strip l) "*ELEMENT_MASS") eqn:HM; [clash HP HM|].
    reflexivity.
  - repeat match goal with |- context [if ?b then _ else _] => destruct b end;
      reflexivity.
Qed.

Lemma element_prefix_kind l :
  startswith_any (strip l) element_keywords
  = (match kind_of l with KElement | KMass => true | _ => false end).
Proof.
  unfold kind_of.
  destruct (startswith_any (strip l) element_keywords) eqn:HE.
  - destruct (startswith (strip l) "*NODE") eqn:HN.
    { apply startswith_any_true in HE as (p & Hin & HE). simpl in Hin.
      repeat (destruct Hin as [<- | Hin]; [clash HN HE|]). destruct Hin. }
    simpl. destruct (startswith (strip l) "*ELEMENT_MASS"); reflexivity.
  - simpl. destruct (startswith (strip l) "*NODE"); [reflexivity|].
    destruct (startswith (strip l) "*ELEMENT_MASS") eqn:HM.
    { exfalso. unfold startswith_any, element_keywords in HE. simpl in HE.
      rewrite HM in HE. rewrite !orb_true_r in HE. discriminate. }
    repeat match goal with |- context [if ?b then _ else _] => destruct b end;
      reflexivity.
Qed.


Lemma mass_kind_prefix l :
  kind_of l = KMass -> startswith (strip l) "*ELEMENT_MASS" = true.
Proof.
  unfold kind_of.
  repeat match goal with
         | |- context [if ?b then _ else _] => destruct b eqn:?
         end; try discriminate; try reflexivity.
  all: intros _;
    match goal with
    | H : _ && negb _ = false, H' : startswith _ "*ELEMENT_MASS" = _ |- _ =>
        rewrite H' in H |- *; try reflexivity
    end.
Qed.


Lemma is_element_header_kind h :
  is_element_header h = (match kind_of h with KElement => true | _ => false end).
Proof.
  unfold is_element_header, kind_of.
  destruct (startswith (strip h) "*NODE") eqn:HN.
  - destruct (startswith_any (strip h) element_keywords) eqn:HE; [|reflexivity].
    apply startswith_any_true in HE as (p & Hin & HE). simpl in Hin.
    repeat (destruct Hin as [<- | Hin]; [clash HN HE|]). destruct Hin.
  - destruct (startswith_any (strip h) element_keywords
              && negb (startswith (strip h) "*ELEMENT_MASS")); [reflexivity|].
    repeat match goal with |- context [if ?b then _ else _] => destruct b end;
      reflexivity.
Qed.

(** *** The inner loops stop at the next header *)

Fixpoint block_body (ls : list string) : list string :=
  match ls with
  | [] => []
  | l :: r => if is_header l then [] else l :: block_body r
  end.

Fixpoint block_rest (ls : list string) : list string :=
  match ls with
  | [] => []
  | l :: r => if is_header l then ls else block_rest r
  end.

Lemma blocks_of_fst ls : (blocks_of ls).1 = block_body ls.
Proof.
  induction ls as [|l r IH]; [reflexivity|]. simpl.
  destruct (blocks_of r) as [pre bs]. simpl in IH.
  destruct (is_header l); simpl; congruence.
Qed.

Lemma deck_blocks_rest ls : deck_blocks (block_rest ls) = deck_blocks ls.
Proof.
  unfold deck_blocks. induction ls as [|l r IH]; [reflexivity|].
  simpl. destruct (is_header l) eqn:E.
  - simpl. now rewrite E.
  - rewrite IH. destruct (blocks_of r). reflexivity.
Qed.

Lemma block_rest_length ls : (length (block_rest ls) <= length ls)%nat.
Proof.
  induction ls as [|l r IH]; simpl; [lia|]. destruct (is_header l); simpl; lia.
Qed.

Lemma deck_blocks_header l rest :
  is_header l = true ->
  deck_blocks (l :: rest) = (l, block_body rest) :: deck_blocks rest.
Proof.
  intros H. unfold deck_blocks. simpl. rewrite <- blocks_of_fst.
  destruct (blocks_of rest). now rewrite H.
Qed.

Lemma deck_blocks_other l rest :
  is_header l = false -> deck_blocks (l :: rest) = deck_blocks rest.
Proof.
  intros H. unfold deck_blocks. simpl. destruct (blocks_of rest). now rewrite H.
Qed.

Definition node_step (pids : gset Z) (hdr : string) (nodes : gset Z) (l : string)
    : gset Z :=
  if is_comment l then nodes
  else element_line_nodes pids hdr (re_split (strip l)) nodes.

Lemma element_block_nodes_body pids hdr ls nodes :
  element_block_nodes pids hdr ls nodes
  = (fold_left (node_step pids hdr) (block_body ls) nodes, block_rest ls).
Proof.
  revert nodes. induction ls as [|l r IH]; intros nodes; [reflexivity|].
  simpl. destruct (is_header l); [reflexivity|]. simpl.
  change (node_step pids hdr nodes l)
    with (if is_comment l then nodes
          else element_line_nodes pids hdr (re_split (strip l)) nodes).
  destruct (is_comment l); apply IH.
Qed.

Definition written_line (kept : string -> bool) (l : string) : bool :=
  is_comment l || kept l.

Lemma filter_block_body kept ls :
  filter_block kept ls
  = (List.filter (written_line kept) (block_body ls), block_rest ls).
Proof.
  induction ls as [|l r IH]; [reflexivity|].
  simpl. destruct (is_header l); [reflexivity|]. rewrite IH. simpl.
  change (written_line kept l) with (is_comment l || kept l).
  destruct (is_comment l); [reflexivity|].
  simpl. destruct (kept l); reflexivity.
Qed.

Definition id_line (keep : gset Z) (l : string) : bool :=
  negb (is_comment l) && first_id_in keep l.

Lemma buffer_block_body keep ls t :
  buffer_block keep ls t
  = (block_body ls, t || existsb (id_line keep) (block_body ls), block_rest ls).
Proof.
  revert t. induction ls as [|l r IH]; intros t.
  - simpl. now rewrite orb_false_r.
  - simpl. destruct (is_header l); [simpl; now rewrite orb_false_r|].
    rewrite IH. simpl.
    change (id_line keep l) with (negb (is_comment l) && first_id_in keep l).
    destruct (is_comment l), t; simpl; reflexivity.
Qed.

Lemma part_lookahead_body fuel ls k :
  part_lookahead fuel ls k = part_lookahead fuel (block_body ls) k.
Proof.
  revert ls. induction fuel as [|f IH]; intros ls; [now destruct ls|].
  destruct ls as [|l r]; [reflexivity|]. simpl.
  destruct (is_header l) eqn:E; [reflexivity|]. simpl. rewrite E.
  destruct (is_comment l); [apply IH|reflexivity].
Qed.

(** *** The passes, block by block *)

Definition block : Type := (string * list string)%type.

Definition pass1_block (k : keep_sets) (b : block) : keep_sets :=
  match kind_of b.1 with
  | KPart => part_lookahead 4 b.2 k
  | _ => k
  end.

Definition pass2_block (pids : gset Z) (nodes : gset Z) (b : block) : gset Z :=
  match kind_of b.1 with
  | KElement | KMass => fold_left (node_step pids (strip b.1)) b.2 nodes
  | _ => nodes
  end.

Definition pass3_block (k : keep_sets) (nodes : gset Z) (b : block) : option block :=
  match kind_of b.1 with
  | KNode => Some (b.1, List.filter (written_line (first_id_in nodes)) b.2)
  | KElement =>
      Some (b.1, List.filter (written_line (element_line_kept (keep_pids k))) b.2)
  | KMass => Some (b.1, List.filter (written_line (mass_line_kept nodes)) b.2)
  | KPart => if existsb (id_line (keep_pids k)) b.2 then Some b else None
  | KSection => if existsb (id_line (keep_sec_ids k)) b.2 then Some b else None
  | KMaterial => if existsb (id_line (keep_mat_ids k)) b.2 then Some b else None
  | KOther => None
  end.

Definition flatten (bs : list block) : list string :=
  flat_map (fun b : block => b.1 :: b.2) bs.

Lemma pass1_blocks ls k :
  pass1_loop ls k = fold_left pass1_block (deck_blocks ls) k.
Proof.
  revert k. induction ls as [|l r IH]; intros k; [reflexivity|].
  cbn [pass1_loop]. rewrite IH, part_prefix_kind. destruct (is_header l) eqn:E.
  - rewrite deck_blocks_header by assumption. cbn [fold_left].
    change (pass1_block k (l, block_body r))
      with (match kind_of l with
            | KPart => part_lookahead 4 (block_body r) k
            | _ => k
            end).
    destruct (kind_of l); try reflexivity. now rewrite part_lookahead_body.
  - rewrite deck_blocks_other by assumption.
    now rewrite (not_header_kind _ E).
Qed.

Lemma pass2_blocks pids fuel ls nodes :
  (length ls <= fuel)%nat ->
  pass2_loop fuel pids ls nodes = fold_left (pass2_block pids) (deck_blocks ls) nodes.
Proof.
  revert ls nodes. induction fuel as [|f IH]; intros ls nodes Hlen.
  - destruct ls; [reflexivity|simpl in Hlen; lia].
  - destruct ls as [|l r]; [reflexivity|]. simpl in Hlen. cbn [pass2_loop]. cbn zeta.
    rewrite element_prefix_kind, element_block_nodes_body.
    pose proof (block_rest_length r) as Hr.
    destruct (is_header l) eqn:E.
    + rewrite deck_blocks_header by assumption. cbn [fold_left].
      change (pass2_block pids nodes (l, block_body r))
        with (match kind_of l with
              | KElement | KMass =>
                  fold_left (node_step pids (strip l)) (block_body r) nodes
              | _ => nodes
              end).
      destruct (kind_of l); rewrite IH by lia; try reflexivity;
        now rewrite deck_blocks_rest.
    + rewrite deck_blocks_other by assumption.
      rewrite (not_header_kind _ E). apply IH. lia.
Qed.

Lemma pass3_blocks k nodes fuel ls :
  (length ls <= fuel)%nat ->
  pass3_loop fuel k nodes ls = flatten (omap (pass3_block k nodes) (deck_blocks ls)).
Proof.
  revert ls. induction fuel as [|f IH]; intros ls Hlen.
  - destruct ls; [reflexivity|simpl in Hlen; lia].
  - destruct ls as [|l r]; [reflexivity|]. simpl in Hlen.
    pose proof (block_rest_length r) as Hr.
    destruct (is_header l) eqn:E.
    + rewrite deck_blocks_header by assumption. cbn [omap list_omap].
      unfold pass3_block at 1. cbn [fst snd].
      cbn [pass3_loop]. rewrite !filter_block_body, !buffer_block_body.
      unfold kind_of. cbn zeta.
      repeat match goal with
             | |- context [if ?b then _ else _] =>
                 lazymatch b with
                 | existsb _ _ => fail
                 | false || _ => fail
                 | _ => destruct b
                 end
             end; cbn [orb];
      try (rewrite IH by lia; rewrite ?deck_blocks_rest;
           try destruct (existsb _ (block_body r)); reflexivity).
    + rewrite deck_blocks_other by assumption.
      pose proof (not_header_kind _ E) as Hk. unfold kind_of in Hk.
      cbn [pass3_loop]. cbn zeta in Hk.
      repeat match goal with
             | H : context [if ?b then _ else _] |- _ =>
                 destruct b; try discriminate H
             end.
      apply IH. lia.
Qed.

(** *** Well-formed blocks and the blocks of the output *)

Definition no_header (l : string) : bool := negb (is_header l).

Definition wf_block (b : block) : Prop :=
  is_header b.1 = true /\ forallb no_header b.2 = true.

Lemma block_body_no_header ls : forallb no_header (block_body ls) = true.
Proof.
  induction ls as [|l r IH]; [reflexivity|]. simpl.
  destruct (is_header l) eqn:E; [reflexivity|]. simpl.
  unfold no_header at 1. now rewrite E.
Qed.

Lemma deck_blocks_wf ls : Forall wf_block (deck_blocks ls).
Proof.
  induction ls as [|l r IH]; [constructor|].
  destruct (is_header l) eqn:E.
  - rewrite deck_blocks_header by assumption. constructor; [|assumption].
    split; [assumption|apply block_body_no_header].
  - now rewrite deck_blocks_other.
Qed.

Lemma blocks_of_data_app d rest :
  forallb no_header d = true ->
  blocks_of (d ++ rest) = (d ++ (blocks_of rest).1, (blocks_of rest).2).
Proof.
  induction d as [|l d IH]; intros H.
  - simpl. now destruct (blocks_of rest).
  - simpl in H. apply andb_true_iff in H as [Hl Hd].
    simpl. rewrite IH by assumption.
    unfold no_header in Hl. destruct (is_header l); [discriminate|reflexivity].
Qed.

Lemma blocks_of_flatten bs :
  Forall wf_block bs -> blocks_of (flatten bs) = ([], bs).
Proof.
  induction 1 as [|[h d] bs [Hh Hd] Hbs IH]; [reflexivity|].
  simpl in Hh, Hd. unfold flatten in *. simpl.
  rewrite blocks_of_data_app by assumption. rewrite IH. simpl.
  rewrite Hh. now rewrite app_nil_r.
Qed.

Lemma forallb_filter {A} (p q : A -> bool) l :
  forallb p l = true -> forallb p (List.filter q l) = true.
Proof.
  induction l as [|a l IH]; [reflexivity|]. simpl. intros H.
  apply andb_true_iff in H as [Ha Hl]. destruct (q a); simpl; [rewrite Ha|]; auto.
Qed.

Lemma pass3_block_wf k nodes b b' :
  wf_block b -> pass3_block k nodes b = Some b' -> wf_block b'.
Proof.
  intros [Hh Hd]. unfold pass3_block.
  destruct (kind_of b.1);
    repeat match goal with |- context [if ?c then _ else _] => destruct c end;
    intros [= <-]; split; simpl; auto using forallb_filter.
Qed.

Lemma omap_pass3_wf k nodes bs :
  Forall wf_block bs -> Forall wf_block (omap (pass3_block k nodes) bs).
Proof.
  induction 1 as [|b bs Hb Hbs IH]; [constructor|].
  simpl. destruct (pass3_block k nodes b) eqn:E; [|assumption].
  constructor; [|assumption]. eauto using pass3_block_wf.
Qed.

Definition provenance (name : string) : string :=
  line ("$ Extracted Odd Components from " +:+ name).

Definition head_block (name : string) : block :=
  (line "*KEYWORD", [provenance name; line "$ Proper DYNA File for Visualization"]).

Definition end_block : block := (line "*END", []).

Lemma provenance_comment name : is_comment (provenance name) = true.
Proof.
  unfold is_comment, provenance, line.
  change (("$ Extracted Odd Components from " +:+ name) +:+ String NL "")
    with (String "$"%char
            ((" Extracted Odd Components from " +:+ name) +:+ String NL "")).
  edestruct (strip_cons "$"%char) as [r' Hr]; [reflexivity|].
  rewrite Hr. reflexivity.
Qed.

Lemma provenance_no_header name : is_header (provenance name) = false.
Proof.
  unfold is_header, provenance, line.
  change (("$ Extracted Odd Components from " +:+ name) +:+ String NL "")
    with (String "$"%char
            ((" Extracted Odd Components from " +:+ name) +:+ String NL "")).
  edestruct (strip_cons "$"%char) as [r' Hr]; [reflexivity|].
  rewrite Hr. reflexivity.
Qed.

Lemma head_block_wf name : wf_block (head_block name).
Proof.
  split; [reflexivity|]. simpl. unfold no_header at 1.
  rewrite provenance_no_header. reflexivity.
Qed.

Lemma end_block_wf : wf_block end_block.
Proof. split; reflexivity. Qed.

(** The lines written are the head block, the blocks pass 3 keeps and
    the end block. *)
Lemma output_flatten name k nodes ls :
  file_header name ++ pass3 k nodes ls ++ file_footer
  = flatten (head_block name
             :: omap (pass3_block k nodes) (deck_blocks ls) ++ [end_block]).
Proof.
  unfold pass3. rewrite pass3_blocks by lia.
  unfold flatten. cbn [flat_map]. rewrite flat_map_app. reflexivity.
Qed.

Lemma output_blocks name k nodes ls :
  deck_blocks (file_header name ++ pass3 k nodes ls ++ file_footer)
  = head_block name :: omap (pass3_block k nodes) (deck_blocks ls) ++ [end_block].
Proof.
  rewrite output_flatten. unfold deck_blocks. rewrite blocks_of_flatten; [reflexivity|].
  constructor; [apply head_block_wf|].
  apply Forall_app. split.
  - apply omap_pass3_wf, deck_blocks_wf.
  - constructor; [apply end_block_wf|constructor].
Qed.

Lemma extract_inv name ls out :
  extract_odd_components name ls = Some out ->
  (keep_pids (pass1 ls) <> ∅) /\
  (out = file_header name
         ++ pass3 (pass1 ls) (pass2 (keep_pids (pass1 ls)) ls) ls ++ file_footer).
Proof.
  unfold extract_odd_components. destruct (decide _); [discriminate|].
  intros [= <-]. split; [assumption|reflexivity].
Qed.

(** *** Referential closure *)









Lemma first_id_in_spec keep l :
  first_id_in keep l = true <-> exists x, first_id l = Some x /\ x ∈ keep.
Proof.
  unfold first_id_in, first_id.
  destruct (re_split (strip l)) as [|t0 ts].
  - split; [discriminate|]. now intros (x & [=] & _).
  - destruct (safe_int t0) as [y|].
    + rewrite bool_decide_eq_true. split; [eauto|]. now intros (x & [= ->] & H).
    + split; [discriminate|]. now intros (x & [=] & _).
Qed.

Lemma in_data_lines l d : In l (data_lines d) <-> In l d /\ is_comment l = false.
Proof.
  unfold data_lines. rewrite filter_In. now rewrite negb_true_iff.
Qed.

Lemma in_element_records el ls :
  el ∈ element_records ls <->
  exists b, In b (deck_blocks ls) /\ kind_of b.1 = KElement
            /\ In el b.2 /\ is_comment el = false.
Proof.
  unfold element_records. rewrite list_elem_of_bind. split.
  - intros (b & Hel & Hb). exists b. rewrite is_element_header_kind in Hel.
    apply list_elem_of_In in Hb.
    destruct (kind_of b.1) eqn:E; try (now apply elem_of_nil in Hel).
    apply list_elem_of_In, in_data_lines in Hel. tauto.
  - intros (b & Hb & Hk & Hel & Hc). exists b.
    rewrite is_element_header_kind, Hk. split.
    + apply list_elem_of_In, in_data_lines. tauto.
    + now apply list_elem_of_In.
Qed.


(** The blocks of the output that come from the input. *)
Lemma in_output_blocks name k nodes ls b' :
  In b' (deck_blocks (file_header name ++ pass3 k nodes ls ++ file_footer)) ->
  kind_of b'.1 <> KOther ->
  exists b, In b (deck_blocks ls) /\ pass3_block k nodes b = Some b'.
Proof.
  rewrite output_blocks. intros [<- | Hin] Hk.
  - exfalso. apply Hk. reflexivity.
  - apply in_app_or in Hin as [Hin | [<- | []]].
    + apply list_elem_of_In, list_elem_of_omap in Hin as (b & Hb & E).
      exists b. split; [now apply list_elem_of_In|assumption].
    + exfalso. apply Hk. reflexivity.
Qed.

Lemma pass3_block_header k nodes b b' :
  pass3_block k nodes b = Some b' -> b'.1 = b.1.
Proof.
  unfold pass3_block.
  destruct (kind_of b.1);
    repeat match goal with |- context [if ?c then _ else _] => destruct c end;
    now intros [= <-].
Qed.


(** *** Extracting again *)

(** What pass 1 reads after a Part header: nothing, or an odd id on a
    record of the block. *)
Lemma part_data_cases tokens k :
  part_data tokens k = k \/
  exists t0 ts pid, tokens = t0 :: ts /\ safe_int t0 = Some pid
                    /\ forall k', pid ∈ keep_pids (part_data tokens k').
Proof.
  destruct tokens as [|t0 ts]; [now left|].
  simpl. destruct (safe_int t0) as [pid|] eqn:E; [|now left].
  destruct (is_odd pid); [|now left].
  right. exists t0, ts, pid. repeat split; try assumption.
  intros k'. simpl. apply elem_of_union. left. now apply elem_of_singleton.
Qed.

Lemma part_lookahead_cases fuel d k :
  part_lookahead fuel d k = k \/
  exists l pid, In l d /\ is_comment l = false /\ first_id l = Some pid
                /\ forall k', pid ∈ keep_pids (part_lookahead fuel d k').
Proof.
  revert d. induction fuel as [|f IH]; intros d; [now left|].
  destruct d as [|l r]; [now left|]. simpl.
  destruct (is_header l); [now left|].
  destruct (is_comment l) eqn:Ec.
  - destruct (IH r) as [H | (l' & pid & Hin & Hc & Hid & Hk)]; [now left|].
    right. exists l', pid. repeat split; auto.
  - destruct (part_data_cases (re_split (strip l)) k)
      as [H | (t0 & ts & pid & Ht & Hs & Hk)]; [now left|].
    right. exists l, pid. repeat split; auto.
    unfold first_id. now rewrite Ht.
Qed.

Lemma part_data_mono tokens k : keep_pids k ⊆ keep_pids (part_data tokens k).
Proof.
  destruct tokens as [|t0 ts]; [reflexivity|]. simpl.
  destruct (safe_int t0); [|reflexivity]. destruct (is_odd z); [|reflexivity].
  simpl. apply union_subseteq_r.
Qed.

Lemma part_lookahead_mono fuel d k :
  keep_pids k ⊆ keep_pids (part_lookahead fuel d k).
Proof.
  revert d. induction fuel as [|f IH]; intros d; [reflexivity|].
  destruct d as [|l r]; [reflexivity|]. simpl.
  destruct (is_header l); [reflexivity|].
  destruct (is_comment l); [apply IH|apply part_data_mono].
Qed.

Lemma pass1_block_mono k b : keep_pids k ⊆ keep_pids (pass1_block k b).
Proof.
  unfold pass1_block. destruct (kind_of b.1); try reflexivity.
  apply part_lookahead_mono.
Qed.

Lemma fold_pass1_mono bs k :
  keep_pids k ⊆ keep_pids (fold_left pass1_block bs k).
Proof.
  revert k. induction bs as [|b bs IH]; intros k; [reflexivity|].
  simpl. etransitivity; [apply pass1_block_mono|apply IH].
Qed.

(** A Part block that adds to the kept sets is a target of pass 3. *)
Lemma part_block_is_target bs b k0 acc :
  In b bs -> kind_of b.1 = KPart ->
  part_lookahead 4 b.2 acc <> acc ->
  existsb (id_line (keep_pids (fold_left pass1_block bs k0))) b.2 = true.
Proof.
  intros Hb Hk Hne.
  destruct (part_lookahead_cases 4 b.2 acc)
    as [H | (l & pid & Hin & Hc & Hid & Hpid)]; [contradiction|].
  apply existsb_exists. exists l. split; [assumption|].
  unfold id_line. rewrite Hc. simpl. apply first_id_in_spec.
  exists pid. split; [assumption|].
  clear Hne. revert k0. induction bs as [|b0 bs IH]; intros k0; [destruct Hb|].
  simpl. destruct Hb as [-> | Hb].
  - apply fold_pass1_mono. unfold pass1_block. rewrite Hk. apply Hpid.
  - now apply IH.
Qed.

Lemma pass1_block_kept k nodes b b' acc :
  pass3_block k nodes b = Some b' -> pass1_block acc b' = pass1_block acc b.
Proof.
  intros H. pose proof (pass3_block_header _ _ _ _ H) as Hh.
  unfold pass1_block. rewrite Hh.
  unfold pass3_block in H. destruct (kind_of b.1); try reflexivity.
  destruct (existsb _ _); [|discriminate]. now injection H as <-.
Qed.

Lemma pass1_omap k nodes bs :
  (forall b acc, In b bs -> kind_of b.1 = KPart ->
                 part_lookahead 4 b.2 acc <> acc ->
                 existsb (id_line (keep_pids k)) b.2 = true) ->
  forall acc,
    fold_left pass1_block (omap (pass3_block k nodes) bs) acc
    = fold_left pass1_block bs acc.
Proof.
  induction bs as [|b bs IH]; intros Hbs acc; [reflexivity|].
  simpl. destruct (pass3_block k nodes b) as [b'|] eqn:E.
  - simpl. rewrite (pass1_block_kept _ _ _ _ _ E).
    apply IH. intros; eapply Hbs; eauto. now right.
  - assert (Hb : pass1_block acc b = acc).
    { unfold pass1_block. unfold pass3_block in E.
      destruct (kind_of b.1) eqn:Hk; try reflexivity; try discriminate.
      destruct (existsb _ _) eqn:Hex; [discriminate|].
      destruct (decide (part_lookahead 4 b.2 acc = acc)) as [Heq|Hne];
        [assumption|].
      rewrite (Hbs b acc) in Hex; [discriminate|now left|assumption|assumption]. }
    rewrite Hb. apply IH. intros; eapply Hbs; eauto. now right.
Qed.

(** A line that pass 3 drops from an element block adds no Node. *)
Lemma node_step_dropped pids hdr acc l :
  written_line (element_line_kept pids) l = false -> node_step pids hdr acc l = acc.
Proof.
  unfold written_line, node_step. intros H.
  apply orb_false_iff in H as [Hc Hk]. rewrite Hc.
  unfold element_line_kept in Hk. unfold element_line_nodes.
  destruct (re_split (strip l)) as [|t0 [|t1 [|t2 ts]]]; try reflexivity.
  destruct (safe_int t1) as [pid|]; [|reflexivity].
  apply bool_decide_eq_false in Hk. destruct (decide (pid ∈ pids)); [contradiction|].
  reflexivity.
Qed.

Lemma node_step_mass pids hdr acc l :
  startswith hdr "*ELEMENT_MASS" = true -> node_step pids hdr acc l = acc.
Proof.
  intros H. unfold node_step, element_line_nodes. rewrite H.
  destruct (is_comment l); [reflexivity|].
  destruct (re_split (strip l)) as [|t0 [|t1 [|t2 ts]]]; try reflexivity.
  destruct (safe_int t1); [|reflexivity]. destruct (decide _); reflexivity.
Qed.

Lemma fold_node_step_filter pids hdr d acc :
  fold_left (node_step pids hdr)
            (List.filter (written_line (element_line_kept pids)) d) acc
  = fold_left (node_step pids hdr) d acc.
Proof.
  revert acc. induction d as [|l d IH]; intros acc; [reflexivity|].
  simpl. destruct (written_line _ l) eqn:E.
  - simpl. apply IH.
  - rewrite node_step_dropped by assumption. apply IH.
Qed.

Lemma fold_node_step_mass pids hdr d acc :
  startswith hdr "*ELEMENT_MASS" = true ->
  fold_left (node_step pids hdr) d acc = acc.
Proof.
  intros H. revert acc. induction d as [|l d IH]; intros acc; [reflexivity|].
  simpl. rewrite node_step_mass by assumption. apply IH.
Qed.

Lemma pass2_block_kept k nodes b b' acc :
  pass3_block k nodes b = Some b' ->
  pass2_block (keep_pids k) acc b' = pass2_block (keep_pids k) acc b.
Proof.
  intros H. pose proof (pass3_block_header _ _ _ _ H) as Hh.
  unfold pass2_block. rewrite Hh.
  unfold pass3_block in H. destruct (kind_of b.1) eqn:Hk; try reflexivity.
  - injection H as <-. simpl. apply fold_node_step_filter.
  - rewrite !fold_node_step_mass; auto using mass_kind_prefix.
Qed.

Lemma pass2_block_dropped k nodes b acc :
  pass3_block k nodes b = None -> pass2_block (keep_pids k) acc b = acc.
Proof.
  unfold pass3_block, pass2_block.
  destruct (kind_of b.1); try reflexivity; discriminate.
Qed.

Lemma pass2_omap k nodes bs acc :
  fold_left (pass2_block (keep_pids k)) (omap (pass3_block k nodes) bs) acc
  = fold_left (pass2_block (keep_pids k)) bs acc.
Proof.
  revert acc. induction bs as [|b bs IH]; intros acc; [reflexivity|].
  simpl. destruct (pass3_block k nodes b) as [b'|] eqn:E.
  - simpl. rewrite (pass2_block_kept _ _ _ _ _ E). apply IH.
  - rewrite (pass2_block_dropped _ _ _ _ E). apply IH.
Qed.

Lemma filter_filter {A} (p : A -> bool) l :
  List.filter p (List.filter p l) = List.filter p l.
Proof.
  induction l as [|a l IH]; [reflexivity|]. simpl.
  destruct (p a) eqn:E; simpl; [rewrite E|]; congruence.
Qed.

Lemma pass3_block_idem k nodes b b' :
  pass3_block k nodes b = Some b' -> pass3_block k nodes b' = Some b'.
Proof.
  intros H. pose proof (pass3_block_header _ _ _ _ H) as Hh.
  unfold pass3_block in *. rewrite Hh.
  destruct (kind_of b.1); try discriminate;
    try (injection H as <-; simpl; now rewrite filter_filter);
    destruct (existsb _ b.2) eqn:E; try discriminate;
    injection H as <-; now rewrite E.
Qed.

Lemma pass3_omap k nodes (bs : list block) :
  omap (pass3_block k nodes) (omap (pass3_block k nodes) bs)
  = omap (pass3_block k nodes) bs.
Proof.
  induction bs as [|b bs IH]; [reflexivity|]. simpl.
  destruct (pass3_block k nodes b) as [b'|] eqn:E; [|assumption].
  cbn [omap list_omap]. rewrite (pass3_block_idem _ _ _ _ E). f_equal. exact IH.
Qed.

Lemma head_block_other name : kind_of (head_block name).1 = KOther.
Proof. reflexivity. Qed.

Lemma end_block_other : kind_of end_block.1 = KOther.
Proof. reflexivity. Qed.

Lemma pass1_output name ls nodes :
  pass1 (file_header name ++ pass3 (pass1 ls) nodes ls ++ file_footer) = pass1 ls.
Proof.
  unfold pass1 at 1. rewrite pass1_blocks, output_blocks.
  cbn [fold_left]. unfold pass1_block at 2. rewrite head_block_other.
  rewrite fold_left_app. cbn [fold_left]. unfold pass1_block at 1.
  rewrite end_block_other.
  rewrite pass1_omap.
  - unfold pass1. now rewrite pass1_blocks.
  - intros b acc Hb Hk Hne. unfold pass1. rewrite pass1_blocks.
    eapply part_block_is_target; eauto.
Qed.

Lemma pass2_output name ls k nodes :
  pass2 (keep_pids k) (file_header name ++ pass3 k nodes ls ++ file_footer)
  = pass2 (keep_pids k) ls.
Proof.
  unfold pass2. rewrite !pass2_blocks by lia. rewrite output_blocks.
  cbn [fold_left]. unfold pass2_block at 2. rewrite head_block_other.
  rewrite fold_left_app. cbn [fold_left]. unfold pass2_block at 1.
  rewrite end_block_other. apply pass2_omap.
Qed.

Lemma pass3_output name ls k nodes :
  pass3 k nodes (file_header name ++ pass3 k nodes ls ++ file_footer)
  = pass3 k nodes ls.
Proof.
  unfold pass3 at 1. rewrite pass3_blocks by lia. rewrite output_blocks.
  cbn [omap list_omap]. unfold pass3_block at 1. rewrite head_block_other.
  rewrite omap_app. cbn [omap list_omap]. unfold pass3_block at 3.
  rewrite end_block_other. rewrite app_nil_r, pass3_omap.
  unfold pass3. now rewrite pass3_blocks by lia.
Qed.

(** On the written lines themselves, extracting again differs from the
    first extraction by the name in the provenance comment only. *)
Lemma extract_again name name' lines out :
  extract_odd_components name lines = Some out ->
  extract_odd_components name' out = extract_odd_components name' lines.
Proof.
  intros H. apply extract_inv in H as [Hne ->].
  unfold extract_odd_components.
  rewrite pass1_output, pass2_output, pass3_output. reflexivity.
Qed.

(** *** The lines written are lines read *)

Lemma blocks_of_lines ls : ls = (blocks_of ls).1 ++ flatten (deck_blocks ls).
Proof.
  unfold deck_blocks, flatten. induction ls as [|l r IH]; [reflexivity|].
  simpl. destruct (blocks_of r) as [pre bs]. simpl in IH.
  destruct (is_header l); simpl; now rewrite IH at 1.
Qed.

Lemma pass3_block_lines k nodes b b' l :
  pass3_block k nodes b = Some b' -> In l (b'.1 :: b'.2) -> In l (b.1 :: b.2).
Proof.
  unfold pass3_block.
  destruct (kind_of b.1);
    repeat match goal with |- context [if ?c then _ else _] => destruct c end;
    try discriminate; intros [= <-]; simpl; try tauto;
    (intros [H | H]; [now left|right]); apply filter_In in H; tauto.
Qed.

Lemma pass3_lines k nodes ls l : In l (pass3 k nodes ls) -> In l ls.
Proof.
  unfold pass3. rewrite pass3_blocks by lia. intros H.
  rewrite (blocks_of_lines ls). apply in_or_app. right.
  unfold flatten in *. apply in_flat_map in H as (b' & Hb' & Hl).
  apply list_elem_of_In, list_elem_of_omap in Hb' as (b & Hb & E).
  apply in_flat_map. exists b. split; [now apply list_elem_of_In|].
  eapply pass3_block_lines; eauto.
Qed.

Lemma output_is_lines name k nodes ls :
  no_newline name = true ->
  forallb is_line ls = true ->
  forallb is_line (file_header name ++ pass3 k nodes ls ++ file_footer) = true.
Proof.
  intros Hn Hls. rewrite !forallb_app. rewrite forallb_forall in Hls.
  apply andb_true_iff. split; [|apply andb_true_iff; split].
  - simpl. rewrite ?andb_true_r. exact (is_line_line name Hn).
  - apply forallb_forall. intros l Hl. apply Hls. eapply pass3_lines; eauto.
  - reflexivity.
Qed.

(** *** Concrete decks *)

(** The deck of the odd-id scenario: Parts 1 and 2 with their Sections and
    Materials, one shell element each, four Nodes. *)
Definition scenario_deck : list string :=
  map line
    ["*KEYWORD"; "*PART"; "1 10 100"; "*PART"; "2 20 200";
     "*SECTION_SHELL"; "10 2"; "1.0 1.0 1.0 1.0";
     "*SECTION_SHELL"; "20 2"; "2.0 2.0 2.0 2.0";
     "*MAT_ELASTIC"; "100 7.8e-9"; "*MAT_ELASTIC"; "200 7.8e-9";
     "*ELEMENT_SHELL"; "1 1 5 6"; "2 2 7 8";
     "*NODE"; "5 0.0 0.0 0.0"; "6 1.0 0.0 0.0"; "7 0.0 1.0 0.0"; "8 1.0 1.0 0.0";
     "*END"].

Definition scenario_kept : list string :=
  map line
    ["*PART"; "1 10 100";
     "*SECTION_SHELL"; "10 2"; "1.0 1.0 1.0 1.0";
     "*MAT_ELASTIC"; "100 7.8e-9";
     "*ELEMENT_SHELL"; "1 1 5 6";
     "*NODE"; "5 0.0 0.0 0.0"; "6 1.0 0.0 0.0"].

Definition scenario_output (name : string) : list string :=
  file_header name ++ scenario_kept ++ file_footer.

(** The odd-id scenario of the specification: Part 1, Section 10,
    Material 100, element 1 and Nodes 5 and 6 are kept, the rest is dropped. *)
Example odd_id_scenario :
  extract_odd_components "a.dyn" scenario_deck = Some (scenario_output "a.dyn").
Proof. vm_compute. reflexivity. Qed.

(** A deck whose last line lacks its terminator. *)
Definition unterminated_text : string :=
  written [line "*PART"; "1 10 100"].

(** C7 (idempotence of extraction), as re-extraction goes through files.
    For a deck whose lines are all complete and a source name without a
    line break, extracting the output again under any name gives what
    extracting the deck itself under that name gives; under the same name
    the output is reproduced unchanged. *)
Theorem extract_file_again name name' text out :
  no_newline name = true ->
  forallb is_line (readlines text) = true ->
  extract_file name text = Some out ->
  extract_file name' out = extract_file name' text
  /\ extract_file name out = Some out.
Proof.
  intros Hn Hls H. unfold extract_file in H.
  destruct (extract_odd_components name (readlines text)) as [chunks|] eqn:E;
    [|discriminate].
  injection H as <-.
  assert (Hback : readlines (written chunks) = chunks).
  { apply readlines_written. apply extract_inv in E as [_ ->].
    now apply output_is_lines. }
  unfold extract_file. rewrite Hback.
  rewrite !(extract_again _ _ _ _ E). rewrite E. split; reflexivity.
Qed.

Lemma extract_file_again_witness :
  extract_file "b.dyn" (written (scenario_output "a.dyn"))
  = extract_file "b.dyn" (written scenario_deck)
  /\ extract_file "a.dyn" (written (scenario_output "a.dyn"))
     = Some (written (scenario_output "a.dyn")).
Proof.
  apply (extract_file_again "a.dyn" "b.dyn" (written scenario_deck)).
  - vm_compute. reflexivity.
  - vm_compute. reflexivity.
  - vm_compute. reflexivity.
Defined.

(** The second extraction of [main] reads a file called
    [Odd_Comps_a.dyn]: its output names that file in the provenance
    comment and so differs from the first output. *)
Lemma second_extraction_differs :
  extract_file "a.dyn" (written scenario_deck)
  = Some (written (scenario_output "a.dyn"))
  /\ extract_file "Odd_Comps_a.dyn" (written (scenario_output "a.dyn"))
     <> Some (written (scenario_output "a.dyn")).
Proof.
  split.
  - vm_compute. reflexivity.
  - vm_compute. discriminate.
Qed.

(** When the last line of the input lacks its terminator and is kept, the
    footer is written onto the same line, and a second extraction under
    the same name adds a footer of its own. *)
Example unterminated_last_line :
  extract_file "a.dyn" unterminated_text
  = Some (written (file_header "a.dyn" ++ [line "*PART"; line "1 10 100*END"]))
  /\ extract_file "a.dyn"
       (written (file_header "a.dyn" ++ [line "*PART"; line "1 10 100*END"]))
     = Some (written (file_header "a.dyn"
                      ++ [line "*PART"; line "1 10 100*END"; line "*END"])).
Proof. split; vm_compute; reflexivity. Qed.


(** *** What pass 1 keeps *)

(** Every set of [k] is within the same set of [k']. *)
Definition keep_le (k k' : keep_sets) : Prop :=
  keep_pids k ⊆ keep_pids k' /\ keep_sec_ids k ⊆ keep_sec_ids k'
  /\ keep_mat_ids k ⊆ keep_mat_ids k'.

Lemma keep_le_refl k : keep_le k k.
Proof. repeat split; reflexivity. Qed.

Lemma keep_le_trans k1 k2 k3 : keep_le k1 k2 -> keep_le k2 k3 -> keep_le k1 k3.
Proof.
  intros (A1 & B1 & C1) (A2 & B2 & C2). repeat split; etransitivity; eauto.
Qed.

(** What a Part line adds depends on the line alone. *)
Lemma part_data_adds tokens k k' :
  keep_le k k' -> keep_le (part_data tokens k) (part_data tokens k').
Proof.
  intros (A & B & C). destruct tokens as [|t0 ts]; [repeat split; assumption|].
  simpl. destruct (safe_int t0) as [pid|]; [|repeat split; assumption].
  destruct (is_odd pid); [|repeat split; assumption].
  repeat split; simpl.
  - set_solver.
  - destruct ts as [|t1 ts']; [assumption|]. destruct (safe_int t1); set_solver.
  - destruct ts as [|t1 [|t2 ts']]; try assumption. destruct (safe_int t2); set_solver.
Qed.

Lemma part_data_grows tokens k : keep_le k (part_data tokens k).
Proof.
  destruct tokens as [|t0 ts]; [apply keep_le_refl|].
  simpl. destruct (safe_int t0) as [pid|]; [|apply keep_le_refl].
  destruct (is_odd pid); [|apply keep_le_refl].
  repeat split; simpl.
  - set_solver.
  - destruct ts as [|t1 ts']; [reflexivity|]. destruct (safe_int t1); set_solver.
  - destruct ts as [|t1 [|t2 ts']]; try reflexivity. destruct (safe_int t2); set_solver.
Qed.

Lemma part_lookahead_adds fuel d k k' :
  keep_le k k' -> keep_le (part_lookahead fuel d k) (part_lookahead fuel d k').
Proof.
  revert d. induction fuel as [|f IH]; intros d H; [exact H|].
  destruct d as [|l r]; [exact H|]. simpl.
  destruct (is_header l); [exact H|].
  destruct (is_comment l); [now apply IH|now apply part_data_adds].
Qed.

Lemma part_lookahead_grows fuel d k : keep_le k (part_lookahead fuel d k).
Proof.
  revert d. induction fuel as [|f IH]; intros d; [apply keep_le_refl|].
  destruct d as [|l r]; [apply keep_le_refl|]. simpl.
  destruct (is_header l); [apply keep_le_refl|].
  destruct (is_comment l); [apply IH|apply part_data_grows].
Qed.

Lemma pass1_loop_grows ls k : keep_le k (pass1_loop ls k).
Proof.
  revert k. induction ls as [|l r IH]; intros k; [apply keep_le_refl|].
  cbn [pass1_loop]. eapply keep_le_trans; [|apply IH].
  destruct (startswith (strip l) "*PART");
    [apply part_lookahead_grows|apply keep_le_refl].
Qed.

Lemma no_keep_least k : keep_le no_keep k.
Proof. repeat split; simpl; set_solver. Qed.

(** Every Part definition adds its ids to the sets, whatever other
    definitions the deck holds: the sets are unions over all of them. *)
Lemma every_part_definition_counts pre l rest :
  startswith (strip l) "*PART" = true ->
  keep_le (part_lookahead 4 rest no_keep) (pass1 (pre ++ l :: rest)).
Proof.
  intros Hl. unfold pass1. generalize no_keep at 2. intros k.
  revert k. induction pre as [|x pre IH]; intros k.
  - cbn [app pass1_loop]. rewrite Hl.
    eapply keep_le_trans; [|apply pass1_loop_grows].
    apply part_lookahead_adds, no_keep_least.
  - cbn [app pass1_loop]. apply IH.
Qed.

(** The Part ids pass 1 keeps are odd. *)
Lemma part_data_odd tokens k :
  (forall pid, pid ∈ keep_pids k -> is_odd pid = true) ->
  forall pid, pid ∈ keep_pids (part_data tokens k) -> is_odd pid = true.
Proof.
  intros Hk. destruct tokens as [|t0 ts]; [exact Hk|].
  simpl. destruct (safe_int t0) as [p|]; [|exact Hk].
  destruct (is_odd p) eqn:E; [|exact Hk]. simpl. intros pid Hpid.
  apply elem_of_union in Hpid as [Hpid | Hpid]; [|now apply Hk].
  apply elem_of_singleton in Hpid. now subst.
Qed.

Lemma part_lookahead_odd fuel d k :
  (forall pid, pid ∈ keep_pids k -> is_odd pid = true) ->
  forall pid, pid ∈ keep_pids (part_lookahead fuel d k) -> is_odd pid = true.
Proof.
  revert d. induction fuel as [|f IH]; intros d Hk; [exact Hk|].
  destruct d as [|l r]; [exact Hk|]. simpl.
  destruct (is_header l); [exact Hk|].
  destruct (is_comment l); [now apply IH|now apply part_data_odd].
Qed.

Lemma kept_parts_odd lines pid :
  pid ∈ keep_pids (pass1 lines) -> is_odd pid = true.
Proof.
  unfold pass1.
  assert (H : forall ls k,
             (forall p, p ∈ keep_pids k -> is_odd p = true) ->
             forall p, p ∈ keep_pids (pass1_loop ls k) -> is_odd p = true).
  { induction ls as [|l r IH]; intros k Hk; [exact Hk|].
    cbn [pass1_loop]. apply IH.
    destruct (startswith (strip l) "*PART"); [now apply part_lookahead_odd|exact Hk]. }
  apply H. intros p Hp. simpl in Hp. set_solver.
Qed.

(** [safe_int] never raises. *)
Lemma safe_int_returns value : exists r, safe_int_result value = Ok r.
Proof.
  unfold safe_int_result, try_except. destruct (safe_int_try value); eauto.
Qed.

Lemma safe_int_value value : safe_int_result value = Ok (safe_int value).
Proof.
  unfold safe_int, safe_int_result, try_except.
  now destruct (safe_int_try value).
Qed.

(** Part 1 defined twice, with Sections 10 and 20. *)
Definition duplicate_deck : list string :=
  map line
    ["*KEYWORD"; "*PART"; "1 10 100"; "*PART"; "1 20 100";
     "*SECTION_SHELL"; "10 2"; "1.0 1.0 1.0 1.0";
     "*SECTION_SHELL"; "20 2"; "2.5 2.5 2.5 2.5"; "*END"].

(** A Part with a negative odd id and a Section id of zero. *)
Definition negative_deck : list string :=
  map line ["*PART"; "-3 0 -7"].

End S1Facts.

(** ** Batch diff *)

Module SS1Facts.
Import Text TextFacts PyFloat SS1.

#[local] Arguments startswith : simpl never.
#[local] Arguments strip : simpl never.
#[local] Arguments re_split : simpl never.
#[local] Arguments upper : simpl never.

(** *** The flag *)

(** C2 (flag of the batch diff).  A Part is an entry of [changes] exactly
    when it is in the part maps of both files, the absolute difference of
    its two values is strictly greater than the tolerance, and one of the
    two values is strictly positive. *)
Theorem flagged_parts a b pid nm va vb :
  (pid, nm, va, vb) ∈ changes a b <->
  exists pa pb,
    parts a !! pid = Some pa /\ parts b !! pid = Some pb /\
    nm = name pa /\ va = value pa /\ vb = value pb /\
    fltb TOLERANCE (fabs (fsub va vb)) = true /\
    (fltb fzero va = true \/ fltb fzero vb = true).
Proof.
  unfold changes. rewrite list_elem_of_omap. split.
  - intros (pid' & _ & H).
    destruct (parts a !! pid') as [pa|] eqn:Ea; [|discriminate].
    destruct (parts b !! pid') as [pb|] eqn:Eb; [|discriminate].
    destruct (differs (value pa) (value pb)) eqn:Ed; [|discriminate].
    injection H as ? ? ? ?; subst. exists pa, pb.
    unfold differs in Ed. apply andb_true_iff in Ed as [Ht Hp].
    apply orb_true_iff in Hp. tauto.
  - intros (pa & pb & Ea & Eb & -> & -> & -> & Ht & Hp).
    exists pid. split.
    + apply elem_of_elements, elem_of_intersection.
      split; apply elem_of_dom; eauto.
    + rewrite Ea, Eb. unfold differs. rewrite Ht. simpl.
      apply orb_true_iff in Hp. now rewrite Hp.
Qed.

Definition float_of (s : string) : spec_float := safe_float s.

(** The boundary examples of the specification, with tolerance 0.001. *)
Example differs_above_tolerance : differs (float_of "2.000") (float_of "2.0011") = true.
Proof. vm_compute. reflexivity. Qed.

Example differs_below_tolerance : differs (float_of "2.000") (float_of "2.0005") = false.
Proof. vm_compute. reflexivity. Qed.

(** The comparison is strict: a difference equal to the tolerance is not
    flagged. *)
Example differs_at_tolerance : differs (float_of "0.001") (float_of "0.0") = false.
Proof. vm_compute. reflexivity. Qed.

(** Two files with Part 1: its shell thickness is -2.0 in the first; in
    the second the Section is not defined and the value stays 0.0. *)
Definition negative_file : list string :=
  map line ["*KEYWORD"; "*PART"; "Plate"; "1 10 100";
            "*SECTION_SHELL"; "10 2"; "-2.0 -2.0 -2.0 -2.0"; "*END"].

Definition unresolved_file : list string :=
  map line ["*KEYWORD"; "*PART"; "Plate"; "1 10 100"; "*END"].

Definition value_of (lines : list string) (pid : Z) : option spec_float :=
  match parse_deep_search lines with
  | Ok d => value <$> parts d !! pid
  | Raise _ => None
  end.

Definition changes_of (lines_a lines_b : list string)
    : option (list (Z * string * spec_float * spec_float)) :=
  match parse_deep_search lines_a, parse_deep_search lines_b with
  | Ok a, Ok b => Some (changes a b)
  | _, _ => None
  end.

(** The difference exceeds the tolerance and one value is not zero, yet
    the Part is not flagged: the code asks for a positive value. *)
Lemma nonzero_difference_not_flagged :
  value_of negative_file 1 = Some (float_of "-2.0")
  /\ value_of unresolved_file 1 = Some (float_of "0.0")
  /\ spec_differs (float_of "-2.0") (float_of "0.0") = true
  /\ changes_of negative_file unresolved_file = Some [].
Proof. repeat split; vm_compute; reflexivity. Qed.

(** *** Identifiers *)

Lemma digit_val_nonneg c : is_ascii_digit c = true -> 0 <= digit_val c.
Proof.
  unfold is_ascii_digit, digit_val. intros H.
  apply andb_true_iff in H as [H _]. apply N.leb_le in H. lia.
Qed.

Lemma digits_value_nonneg s acc :
  0 <= acc -> all_chars is_ascii_digit s = true -> 0 <= digits_value acc s.
Proof.
  revert acc. induction s as [|c s IH]; intros acc Hacc H; [assumption|].
  simpl in *. apply andb_true_iff in H as [Hc Hs].
  apply IH; [|assumption]. pose proof (digit_val_nonneg c Hc). lia.
Qed.

Lemma int_of_digits_nonneg s n : int_of_digits s = Ok n -> 0 <= n.
Proof.
  unfold int_of_digits. destruct (all_chars is_ascii_digit s) eqn:E; [|discriminate].
  intros [= <-]. now apply digits_value_nonneg.
Qed.

Lemma rbind_ok {A B} (r : result A) (k : A -> result B) b :
  (x ← r; k x) = Ok b -> exists a, r = Ok a /\ k a = Ok b.
Proof. destruct r as [a|e]; [eauto|discriminate]. Qed.

(** The ids [get_numeric_line] returns are not negative. *)
Lemma get_numeric_line_nonneg l a b :
  get_numeric_line l = Ok (Some (a, b)) -> 0 <= a /\ 0 <= b.
Proof.
  unfold get_numeric_line.
  destruct (List.filter _ _) as [|t0 [|t1 ts]]; try discriminate.
  destruct (isdigit t0 && isdigit t1); [|discriminate].
  intros H. apply rbind_ok in H as (x & Hx & H).
  apply rbind_ok in H as (y & Hy & H). injection H as <- <-.
  eauto using int_of_digits_nonneg.
Qed.

Lemma part_scan_nonneg fuel offset prev rest nm a b nm' :
  part_scan fuel offset prev rest nm = Ok (Some (a, b), nm') -> 0 <= a /\ 0 <= b.
Proof.
  revert offset prev rest nm.
  induction fuel as [|f IH]; intros offset prev rest nm; [discriminate|].
  destruct rest as [|l r]; [discriminate|]. simpl.
  destruct (startswith (strip l) "*"); [discriminate|].
  destruct (startswith (strip l) "$"); [apply IH|].
  intros H. apply rbind_ok in H as (ids & Hids & H).
  destruct ids as [[x y]|].
  - injection H as <- <- _. eauto using get_numeric_line_nonneg.
  - eapply IH; eauto.
Qed.

Definition ids_nonneg (d : deck_data) : Prop :=
  (forall pid p, parts d !! pid = Some p -> 0 <= pid /\ 0 <= secid p)
  /\ (forall sid v, sections d !! sid = Some v -> 0 <= sid).

Lemma section_scan_nonneg fuel rest secs secs' :
  section_scan fuel rest secs = Ok secs' ->
  (forall sid v, secs !! sid = Some v -> 0 <= sid) ->
  forall sid v, secs' !! sid = Some v -> 0 <= sid.
Proof.
  revert rest. induction fuel as [|f IH]; intros rest; [now intros [= <-]|].
  destruct rest as [|l r]; [now intros [= <-]|]. simpl.
  destruct (startswith (strip l) "*"); [now intros [= <-]|].
  destruct (startswith (strip l) "$"); [apply IH|].
  destruct (re_split (strip l)) as [|t0 ts]; [apply IH|].
  destruct (isdigit t0); [|apply IH].
  intros H Hs. apply rbind_ok in H as (sid0 & Hsid & H). injection H as <-.
  apply int_of_digits_nonneg in Hsid.
  destruct (thickness_scan r); [|assumption].
  intros sid v. rewrite lookup_insert. case_decide; [intros; subst; assumption|apply Hs].
Qed.

Lemma parse_line_nonneg l rest d d' :
  parse_line l rest d = Ok d' -> ids_nonneg d -> ids_nonneg d'.
Proof.
  unfold parse_line.
  destruct (_ || _); [now intros [= <-]|].
  destruct (startswith (strip l) "*"); [|now intros [= <-]].
  destruct (first_word (strip l)) as [w|]; [|now intros [= <-]].
  assert (Hsec : parse_section rest d = Ok d' -> ids_nonneg d -> ids_nonneg d').
  { unfold parse_section. intros H [Hp Hs].
    apply rbind_ok in H as (secs & Hsecs & H). injection H as <-.
    split; [exact Hp|]. simpl. eauto using section_scan_nonneg. }
  destruct (startswith (upper w) "*PART").
  - clear Hsec. unfold parse_part. intros H [Hp Hs].
    apply rbind_ok in H as ([[[a b]|] nm] & Hscan & H); injection H as <-;
      [|now split].
    apply part_scan_nonneg in Hscan. split; [|exact Hs]. simpl.
    intros pid p. rewrite lookup_insert.
    case_decide; [intros [= <-]; subst; exact Hscan|apply Hp].
  - destruct (startswith (upper w) "*SECTION_SHELL"); [exact Hsec|].
    destruct (startswith (upper w) "*SECTION_BEAM"); [exact Hsec|].
    now intros [= <-].
Qed.

Lemma parse_loop_nonneg ls d d' :
  parse_loop ls d = Ok d' -> ids_nonneg d -> ids_nonneg d'.
Proof.
  revert d. induction ls as [|l r IH]; intros d; [now intros [= <-]|].
  simpl. intros H Hd. apply rbind_ok in H as (d1 & H1 & H).
  eauto using parse_line_nonneg.
Qed.

Lemma link_nonneg d : ids_nonneg d -> ids_nonneg (link d).
Proof.
  intros [Hp Hs]. split; [|exact Hs]. simpl. intros pid p.
  rewrite lookup_fmap. destruct (parts d !! pid) as [q|] eqn:E; [|discriminate].
  simpl. intros [= <-]. unfold link_part.
  destruct (sections d !! secid q); simpl; eauto.
Qed.

(** Every id in the maps of a parsed file is a non-negative integer. *)
Lemma parsed_ids_nonneg lines d :
  parse_deep_search lines = Ok d -> ids_nonneg d.
Proof.
  unfold parse_deep_search. intros H.
  apply rbind_ok in H as (d0 & H0 & H). injection H as <-.
  apply link_nonneg. eapply parse_loop_nonneg; eauto.
  split; intros ? ?; simpl; rewrite lookup_empty; discriminate.
Qed.

(** A file whose Part line starts with the superscript two (U+00B2). *)
Definition superscript_file : list string :=
  [line "*PART"; line (String "178"%char " 5")].

(** C8 (malformed tokens).  [str.isdigit] accepts the superscript two and
    [int] refuses it: the [ValueError] leaves [parse_deep_search], and
    [worker] drops the whole file. *)
Theorem superscript_digit_aborts_parse :
  get_numeric_line (String "178"%char " 5") = Raise ValueError
  /\ parse_deep_search superscript_file = Raise ValueError
  /\ worker superscript_file = None.
Proof. repeat split; vm_compute; reflexivity. Qed.

(** [safe_float] itself never raises. *)
Lemma safe_float_returns s : exists f, safe_float_result s = Ok f.
Proof.
  unfold safe_float_result, try_except. destruct (py_float s); eauto.
Qed.

(** A Part id of zero is recorded. *)
Definition zero_file : list string := [line "*PART"; line "0 0 0"].

Example zero_part_recorded :
  (match parse_deep_search zero_file with
   | Ok d => secid <$> parts d !! 0
   | Raise _ => None
   end) = Some 0.
Proof. vm_compute. reflexivity. Qed.

(** *** Duplicate Part ids *)

(** The line takes the Part branch of [parse_deep_search]. *)
Definition is_part_header (l : string) : bool :=
  let line_strip := strip l in
  negb (String.eqb line_strip "" || startswith line_strip "$")
  && startswith line_strip "*"
  && match first_word line_strip with
     | Some w => startswith (upper w) "*PART"
     | None => false
     end.

(** The entry a Part header followed by [rest] puts into [data["parts"]]. *)
Definition part_definition (l : string) (rest : list string) : option (Z * part) :=
  if is_part_header l then
    match part_scan 4 1 l rest "Unknown" with
    | Ok (Some (found_pid, found_secid), part_name) =>
        Some (found_pid, Part part_name found_secid fzero)
    | _ => None
    end
  else None.

(** Some line of [rest] defines the Part [pid]. *)
Fixpoint defines_later (pid : Z) (rest : list string) : bool :=
  match rest with
  | [] => false
  | l :: r =>
      match part_definition l r with
      | Some (q, _) => q =? pid
      | None => false
      end || defines_later pid r
  end.

Lemma parse_line_parts l rest d d' :
  parse_line l rest d = Ok d' ->
  parts d' = match part_definition l rest with
             | Some (pid, p) => <[pid := p]> (parts d)
             | None => parts d
             end.
Proof.
  unfold parse_line, part_definition, is_part_header.
  destruct (_ || _); [now intros [= <-]|]. cbn [negb andb].
  destruct (startswith (strip l) "*"); [|now intros [= <-]]. cbn [negb andb].
  destruct (first_word (strip l)) as [w|]; [|now intros [= <-]].
  assert (Hsec : parse_section rest d = Ok d' -> parts d' = parts d).
  { unfold parse_section. intros H.
    apply rbind_ok in H as (secs & _ & H). now injection H as <-. }
  destruct (startswith (upper w) "*PART").
  - unfold parse_part. intros H.
    apply rbind_ok in H as ([[[a b]|] nm] & -> & H); now injection H as <-.
  - destruct (startswith (upper w) "*SECTION_SHELL"); [exact Hsec|].
    destruct (startswith (upper w) "*SECTION_BEAM"); [exact Hsec|].
    now intros [= <-].
Qed.

Lemma parse_loop_keeps rest pid d d' :
  parse_loop rest d = Ok d' ->
  defines_later pid rest = false ->
  parts d' !! pid = parts d !! pid.
Proof.
  revert d. induction rest as [|l r IH]; intros d; [now intros [= <-]|].
  cbn [parse_loop defines_later]. intros H Hno.
  apply rbind_ok in H as (d1 & H1 & H).
  apply orb_false_iff in Hno as [Hl Hr].
  rewrite (IH _ H Hr). rewrite (parse_line_parts _ _ _ _ H1).
  destruct (part_definition l r) as [[q p]|]; [|reflexivity].
  apply Z.eqb_neq in Hl. now rewrite lookup_insert_ne.
Qed.

Lemma parse_loop_last pre l rest pid p d0 d :
  parse_loop (pre ++ l :: rest) d0 = Ok d ->
  part_definition l rest = Some (pid, p) ->
  defines_later pid rest = false ->
  parts d !! pid = Some p.
Proof.
  revert d0. induction pre as [|x pre IH]; intros d0 H Hdef Hno.
  - cbn [app parse_loop] in H. apply rbind_ok in H as (d1 & H1 & H).
    rewrite (parse_loop_keeps _ _ _ _ H Hno).
    rewrite (parse_line_parts _ _ _ _ H1), Hdef. apply lookup_insert_eq.
  - cbn [app parse_loop] in H. apply rbind_ok in H as (d1 & H1 & H). eauto.
Qed.

(** In the part map of a parsed file the entry of a Part is that of its
    last definition, whole: name and Section id come from it alone, and
    the value is the thickness of that Section. *)
Lemma last_part_definition_wins pre l rest pid p d :
  parse_deep_search (pre ++ l :: rest) = Ok d ->
  part_definition l rest = Some (pid, p) ->
  defines_later pid rest = false ->
  parts d !! pid = Some (link_part (sections d) p).
Proof.
  unfold parse_deep_search. intros H Hdef Hno.
  apply rbind_ok in H as (d1 & H1 & H). injection H as <-. simpl.
  rewrite lookup_fmap, (parse_loop_last _ _ _ _ _ _ _ H1 Hdef Hno). reflexivity.
Qed.

(** Part 1 defined twice, with Sections 10 and 20. *)
Definition duplicate_file : list string :=
  map line ["*KEYWORD"; "*PART"; "first"; "1 10 100"; "*PART"; "second"; "1 20 100";
            "*SECTION_SHELL"; "10 2"; "1.0"; "*SECTION_SHELL"; "20 2"; "2.5"; "*END"].

Example duplicate_part_in_diff_map :
  (match parse_deep_search duplicate_file with
   | Ok d => parts d !! 1
   | Raise _ => None
   end) = Some (Part "second" 20 (float_of "2.5")).
Proof. vm_compute. reflexivity. Qed.

End SS1Facts.

(** ** Dictionaries *)

Module DictFacts.
Section DictFacts.
Context {K V : Type} (eqb : K -> K -> bool).

Lemma get_set_same (d : list (K * V)) k v :
  eqb k k = true -> Dict.get eqb (Dict.set eqb d k v) k = Some v.
Proof.
  intros Hk. induction d as [|[k' v'] d IH]; simpl.
  - now rewrite Hk.
  - destruct (eqb k' k) eqn:E; simpl; rewrite E; [reflexivity|exact IH].
Qed.

(** Assigning to [k] leaves the value of [k2] alone when no key is equal
    to both. *)
Lemma get_set_other (d : list (K * V)) k v k2 :
  (forall e, eqb e k = true -> eqb e k2 = false) ->
  eqb k k2 = false ->
  Dict.get eqb (Dict.set eqb d k v) k2 = Dict.get eqb d k2.
Proof.
  intros Hdisj Hk. induction d as [|[k' v'] d IH]; simpl.
  - now rewrite Hk.
  - destruct (eqb k' k) eqn:E; simpl.
    + now rewrite (Hdisj _ E).
    + destruct (eqb k' k2); [reflexivity|exact IH].
Qed.

Lemma keys_set (d : list (K * V)) k v :
  Dict.keys (Dict.set eqb d k v)
  = if Dict.has_key eqb d k then Dict.keys d else Dict.keys d ++ [k].
Proof.
  unfold Dict.has_key, Dict.keys. induction d as [|[k' v'] d IH]; simpl; [reflexivity|].
  destruct (eqb k' k); simpl; [reflexivity|].
  rewrite IH. now destruct (Dict.get eqb d k).
Qed.

Lemma set_nonempty (d : list (K * V)) k v : Dict.set eqb d k v <> [].
Proof. destruct d as [|[k' v'] d]; simpl; [|destruct (eqb k' k)]; discriminate. Qed.

(** An item after an assignment was there before, or holds the value
    assigned. *)
Lemma in_set (d : list (K * V)) k v k' v' :
  In (k', v') (Dict.set eqb d k v) -> In (k', v') d \/ v' = v.
Proof.
  induction d as [|[k0 v0] d IH]; simpl.
  - intros [[= <- <-] | []]. now right.
  - destruct (eqb k0 k); simpl.
    + intros [[= <- <-] | H]; [now right|left; now right].
    + intros [H | H]; [left; now left|].
      destruct (IH H); [left; now right|now right].
Qed.

Lemma get_in (d : list (K * V)) k v :
  Dict.get eqb d k = Some v -> exists k', In (k', v) d.
Proof.
  induction d as [|[k0 v0] d IH]; simpl; [discriminate|].
  destruct (eqb k0 k).
  - intros [= <-]. exists k0. now left.
  - intros H. destruct (IH H) as [k' Hk']. exists k'. now right.
Qed.

End DictFacts.

(** Dictionaries with [str] keys. *)
Section StrDict.
Context {V : Type}.

Lemma str_get_set_same (d : list (string * V)) k v :
  Dict.get String.eqb (Dict.set String.eqb d k v) k = Some v.
Proof. apply get_set_same, String.eqb_refl. Qed.

Lemma str_get_set_other (d : list (string * V)) k v k2 :
  k <> k2 -> Dict.get String.eqb (Dict.set String.eqb d k v) k2 = Dict.get String.eqb d k2.
Proof.
  intros Hne. apply get_set_other.
  - intros e He. apply String.eqb_eq in He. subst. now apply String.eqb_neq.
  - now apply String.eqb_neq.
Qed.

Lemma str_has_key (d : list (string * V)) k :
  Dict.has_key String.eqb d k = true <-> In k (Dict.keys d).
Proof.
  unfold Dict.has_key, Dict.keys. induction d as [|[k' v'] d IH]; simpl.
  - split; [discriminate|tauto].
  - destruct (String.eqb k' k) eqn:E.
    + apply String.eqb_eq in E. tauto.
    + apply String.eqb_neq in E. rewrite IH. tauto.
Qed.

Lemma str_keys_nodup (d : list (string * V)) k v :
  NoDup (Dict.keys d) -> NoDup (Dict.keys (Dict.set String.eqb d k v)).
Proof.
  intros Hd. rewrite keys_set.
  destruct (Dict.has_key String.eqb d k) eqn:E; [assumption|].
  apply NoDup_app. split; [assumption|]. split.
  - intros x Hx. rewrite list_elem_of_In in Hx.
    intros Hk. apply list_elem_of_In in Hk. destruct Hk as [<- | []].
    apply str_has_key in Hx. congruence.
  - apply NoDup_singleton.
Qed.

(** With distinct keys every item is the value of its key. *)
Lemma str_get_item (d : list (string * V)) k v :
  NoDup (Dict.keys d) -> In (k, v) d -> Dict.get String.eqb d k = Some v.
Proof.
  unfold Dict.keys. induction d as [|[k' v'] d IH]; intros Hd Hin; [destruct Hin|].
  simpl in *. apply NoDup_cons in Hd as [Hnot Hd'].
  destruct Hin as [[= -> ->] | Hin].
  - now rewrite String.eqb_refl.
  - destruct (String.eqb k' k) eqn:E; [|now apply IH].
    apply String.eqb_eq in E. subst. exfalso. apply Hnot.
    apply list_elem_of_In, in_map_iff. now exists (k, v).
Qed.

End StrDict.
End DictFacts.

(** ** Floats *)

Module PyFloatFacts.
Import PyFloat.

Definition one : spec_float := of_int 1.

Lemma shr_1_nonneg mrs : 0 <= shr_m mrs -> 0 <= shr_m (shr_1 mrs).
Proof.
  destruct mrs as [m r s]. simpl.
  destruct m as [|[p|p|]|[p|p|]]; simpl; lia.
Qed.

Lemma iter_shr_1_nonneg n mrs :
  0 <= shr_m mrs -> 0 <= shr_m (SpecFloat.iter_pos shr_1 n mrs).
Proof.
  revert mrs. induction n as [n IH|n IH|]; intros mrs H; simpl;
    auto using shr_1_nonneg.
Qed.

Lemma shr_fexp_nonneg m e l :
  0 <= m -> 0 <= shr_m (shr_fexp prec emax m e l).1.
Proof.
  intros H. unfold shr_fexp, shr.
  assert (Hm : 0 <= shr_m (shr_record_of_loc m l)).
  { destruct l as [|[]]; simpl; assumption. }
  destruct (_ - e); simpl; auto using iter_shr_1_nonneg.
Qed.

Lemma round_nearest_even_nonneg m l : 0 <= m -> 0 <= round_nearest_even m l.
Proof.
  intros H. destruct l as [|[]]; simpl; try lia. destruct (Z.even m); lia.
Qed.

Lemma binary_round_aux_not_nan s m e l :
  0 <= m -> binary_round_aux prec emax s m e l <> S754_nan.
Proof.
  intros H. unfold binary_round_aux.
  pose proof (shr_fexp_nonneg m e l H) as H1.
  destruct (shr_fexp prec emax m e l) as [mrs' e']. simpl in H1.
  pose proof (shr_fexp_nonneg _ e' loc_Exact
                (round_nearest_even_nonneg _ (loc_of_shr_record mrs') H1)) as H2.
  destruct (shr_fexp prec emax (round_nearest_even _ _) e' loc_Exact) as [mrs'' e''].
  simpl in H2. destruct (shr_m mrs''); [discriminate| |lia].
  destruct (_ <=? _); discriminate.
Qed.

Lemma binary_normalize_not_nan m e s :
  binary_normalize prec emax m e s <> S754_nan.
Proof.
  unfold binary_normalize, binary_round.
  destruct m; [discriminate| |];
    destruct (shl_align _ _ _); apply binary_round_aux_not_nan; lia.
Qed.

Lemma of_ratio_not_nan neg num den : of_ratio neg num den <> S754_nan.
Proof. apply binary_normalize_not_nan. Qed.

(** Rounding to decimals makes no NaN. *)
Lemma round_ndigits_nan x n : round_ndigits x n = S754_nan -> x = S754_nan.
Proof.
  destruct x as [s|s| |s m e]; simpl; try easy.
  destruct (if 0 <=? e then _ else _); try discriminate.
  intros H. now apply of_ratio_not_nan in H.
Qed.

(** [n / n] is 1.0. *)
Lemma of_ratio_self p : of_ratio false p p = one.
Proof.
  unfold of_ratio. cbv zeta.
  replace (56 + Z.log2 (Z.pos p) - Z.log2 (Z.pos p)) with 56 by lia.
  change (Z.max 0 56) with 56.
  assert (Hq : Z.pos p * 2 ^ 56 / Z.pos p = 2 ^ 56)
    by (rewrite Z.mul_comm; apply Z.div_mul; lia).
  assert (Hr : (Z.pos p * 2 ^ 56) mod Z.pos p = 0)
    by (rewrite Z.mul_comm; apply Z.mod_mul; lia).
  rewrite Hq, Hr. vm_compute. reflexivity.
Qed.

Lemma int_truediv_self n : 0 < n -> int_truediv n n = one.
Proof.
  intros H. destruct n as [|p|p]; try lia. apply of_ratio_self.
Qed.

End PyFloatFacts.

(** ** Similarity *)

Module SimilarityFacts.
Import Text PyFloat Similarity DictFacts.

(** *** Equality of values *)

Lemma py_eq_true a b :
  py_eq a b = true <-> exists x, eq_key_of a = Some x /\ eq_key_of b = Some x.
Proof.
  unfold py_eq. destruct (eq_key_of a) as [x|], (eq_key_of b) as [y|].
  - rewrite bool_decide_eq_true. split; [intros ->; eauto|].
    now intros (z & [= ->] & [= ->]).
  - split; [discriminate|]. now intros (z & _ & [=]).
  - split; [discriminate|]. now intros (z & [=] & _).
  - split; [discriminate|]. now intros (z & [=] & _).
Qed.

(** Two values equal to a third are equal. *)
Lemma py_eq_euclid a b c :
  py_eq a b = true -> py_eq a c = true -> py_eq b c = true.
Proof.
  rewrite !py_eq_true. intros (x & Ha & Hb) (y & Ha' & Hc).
  exists x. split; congruence.
Qed.

Lemma py_eq_sym a b : py_eq a b = py_eq b a.
Proof.
  unfold py_eq. destruct (eq_key_of a), (eq_key_of b); try reflexivity.
  apply bool_decide_ext. split; congruence.
Qed.

Definition is_nan (v : pyval) : bool :=
  match v with
  | VFloat S754_nan => true
  | _ => false
  end.

(** Every value but a NaN is equal to itself. *)
Lemma py_eq_refl v : is_nan v = false -> py_eq v v = true.
Proof.
  intros H. apply py_eq_true. destruct v as [| b | n | f | s]; simpl; eauto.
  destruct f as [s | s | | s m e]; simpl; eauto; [discriminate|].
  destruct (odd_part m e). eauto.
Qed.

Lemma py_eq_str s t : py_eq (VStr s) (VStr t) = true <-> s = t.
Proof.
  unfold py_eq. simpl. rewrite bool_decide_eq_true. split; congruence.
Qed.

(** *** The canonical model *)

(** The record stored for a keyword name and a card id. *)
Definition lookup_card (data : canonical) (kw_name : string) (cid : pyval)
    : option fields_dict :=
  cards ← Dict.get String.eqb data kw_name; Dict.get py_eq cards cid.

(** A card without any of the id fields. *)
Definition idless (kw : keyword) : bool :=
  forallb (fun field => negb (has_field kw field)) id_fields.

Lemma idless_card_id kw : idless kw = true -> card_id kw = VStr "Global".
Proof.
  unfold idless, card_id. intros H.
  destruct (List.find (has_field kw) id_fields) as [f|] eqn:E; [|reflexivity].
  apply find_some in E as [Hin Hf]. rewrite forallb_forall in H.
  specialize (H f Hin). rewrite Hf in H. discriminate.
Qed.

Lemma canon_step_same (data : canonical) kw :
  py_eq (card_id kw) (card_id kw) = true ->
  lookup_card (canon_step data kw) (get_keyword_name kw) (card_id kw)
  = Some (card_fields kw).
Proof.
  intros H. unfold lookup_card, canon_step.
  rewrite str_get_set_same. simpl. now apply get_set_same.
Qed.

Lemma canon_step_other_name (data : canonical) kw n :
  get_keyword_name kw <> n ->
  Dict.get String.eqb (canon_step data kw) n = Dict.get String.eqb data n.
Proof. intros H. unfold canon_step. now apply str_get_set_other. Qed.

Lemma canon_step_other_id (data : canonical) kw cid :
  py_eq (card_id kw) cid = false ->
  lookup_card (canon_step data kw) (get_keyword_name kw) cid
  = lookup_card data (get_keyword_name kw) cid.
Proof.
  intros H. unfold lookup_card, canon_step.
  rewrite str_get_set_same. simpl. rewrite get_set_other; [|
    intros e He; destruct (py_eq e cid) eqn:E; [|reflexivity];
    rewrite (py_eq_euclid _ _ _ He E) in H; discriminate | exact H].
  now destruct (Dict.get String.eqb data (get_keyword_name kw)).
Qed.

(** A later card with another name or another id leaves the record alone. *)
Definition overrides (kw kw' : keyword) : bool :=
  String.eqb (get_keyword_name kw') (get_keyword_name kw)
  && py_eq (card_id kw') (card_id kw).

Lemma canon_step_keeps (data : canonical) kw kw' :
  overrides kw kw' = false ->
  lookup_card (canon_step data kw') (get_keyword_name kw) (card_id kw)
  = lookup_card data (get_keyword_name kw) (card_id kw).
Proof.
  unfold overrides. intros H.
  destruct (String.eqb (get_keyword_name kw') (get_keyword_name kw)) eqn:E.
  - apply String.eqb_eq in E. rewrite <- E. simpl in H.
    now apply canon_step_other_id.
  - apply String.eqb_neq in E. unfold lookup_card.
    now rewrite canon_step_other_name.
Qed.

(** In the canonical model the record of a card that no later card
    overrides is the dictionary of its own fields. *)
Lemma last_card_wins pre kw post :
  py_eq (card_id kw) (card_id kw) = true ->
  forallb (fun kw' => negb (overrides kw kw')) post = true ->
  lookup_card (canonicalize (pre ++ kw :: post)) (get_keyword_name kw) (card_id kw)
  = Some (card_fields kw).
Proof.
  intros Hid Hpost. unfold canonicalize. rewrite fold_left_app. cbn [fold_left].
  generalize (fold_left canon_step pre []). intros data.
  rewrite <- (canon_step_same data kw Hid).
  generalize (canon_step data kw). clear data. intros data.
  revert data. induction post as [|kw' post IH]; intros data; [reflexivity|].
  cbn [forallb] in Hpost. apply andb_true_iff in Hpost as [Hk Hpost].
  cbn [fold_left]. rewrite IH by assumption.
  apply canon_step_keeps. now apply negb_true_iff.
Qed.

(** The cards of a keyword whose cards so far have no id field. *)
Lemma canon_step_global (data : canonical) kw :
  idless kw = true ->
  (Dict.get String.eqb data (get_keyword_name kw) = None
   \/ exists f, Dict.get String.eqb data (get_keyword_name kw)
               = Some [(VStr "Global", f)]) ->
  Dict.get String.eqb (canon_step data kw) (get_keyword_name kw)
  = Some [(VStr "Global", card_fields kw)].
Proof.
  intros Hid Hdata. unfold canon_step. cbv zeta. rewrite str_get_set_same.
  rewrite (idless_card_id _ Hid).
  destruct Hdata as [-> | [f ->]]; reflexivity.
Qed.

Definition named (n : string) (kw : keyword) : bool :=
  String.eqb (get_keyword_name kw) n.

Lemma canon_global_prefix n pre :
  forallb (fun kw => negb (named n kw) || idless kw) pre = true ->
  Dict.get String.eqb (fold_left canon_step pre []) n = None
  \/ exists f, Dict.get String.eqb (fold_left canon_step pre []) n
              = Some [(VStr "Global", f)].
Proof.
  induction pre as [|kw pre IH] using rev_ind; intros H; [now left|].
  rewrite forallb_app in H. apply andb_true_iff in H as [Hpre Hkw].
  cbn [forallb] in Hkw. rewrite andb_true_r in Hkw.
  rewrite fold_left_app. cbn [fold_left].
  unfold named in Hkw. destruct (String.eqb (get_keyword_name kw) n) eqn:E.
  - apply String.eqb_eq in E. subst n. simpl in Hkw. right.
    eexists. apply canon_step_global; auto.
  - apply String.eqb_neq in E. rewrite canon_step_other_name by assumption. auto.
Qed.

(** *** Cards without an id field *)

(** C10 (cards without an id field).  Such a card is stored under the key
    ["Global"] of its keyword name; its fields are the record found there
    unless a later card of the keyword takes that key, and when every
    earlier card of the keyword lacks an id field too and none follows,
    the keyword holds this one record, that of the last card. *)
Theorem idless_cards_share_global pre kw post :
  idless kw = true ->
  forallb (fun kw' => negb (overrides kw kw')) post = true ->
  card_id kw = VStr "Global"
  /\ lookup_card (canonicalize (pre ++ kw :: post)) (get_keyword_name kw)
       (VStr "Global") = Some (card_fields kw)
  /\ (forallb (fun kw' => negb (named (get_keyword_name kw) kw') || idless kw') pre
      = true ->
      forallb (fun kw' => negb (named (get_keyword_name kw) kw')) post = true ->
      Dict.get String.eqb (canonicalize (pre ++ kw :: post)) (get_keyword_name kw)
      = Some [(VStr "Global", card_fields kw)]).
Proof.
  intros Hid Hpost. pose proof (idless_card_id _ Hid) as Hcid.
  split; [exact Hcid|]. split.
  - rewrite <- Hcid. apply last_card_wins; [|assumption].
    rewrite Hcid. reflexivity.
  - intros Hpre Hnone. unfold canonicalize. rewrite fold_left_app. cbn [fold_left].
    pose proof (canon_global_prefix _ _ Hpre) as Hdata.
    apply (canon_step_global _ _ Hid) in Hdata.
    revert Hdata. generalize (canon_step (fold_left canon_step pre []) kw).
    clear Hpost Hpre. induction post as [|kw' post IH]; intros data Hdata;
      [exact Hdata|].
    cbn [forallb] in Hnone. apply andb_true_iff in Hnone as [Hk Hnone].
    cbn [fold_left]. apply IH; [assumption|].
    rewrite canon_step_other_name; [assumption|].
    unfold named in Hk. apply negb_true_iff in Hk. now apply String.eqb_neq.
Qed.

(** *** The parametric score *)

(** The counters after the pairs [ps] were compared. *)
Definition tally (ps : list (pyval * pyval)) (c : counters) : counters :=
  (c.1 + Z.of_nat (length ps), c.2 + Z.of_nat (length (List.filter spec_matches ps))).

Lemma tally_nil c : tally [] c = c.
Proof. destruct c. unfold tally. simpl. f_equal; lia. Qed.

Lemma tally_app ps qs c : tally (ps ++ qs) c = tally qs (tally ps c).
Proof.
  unfold tally. simpl. rewrite List.filter_app, !length_app, !Nat2Z.inj_add.
  f_equal; lia.
Qed.

Lemma fold_tally {A} (step : counters -> A -> counters) (G : A -> list (pyval * pyval)) :
  (forall c x, step c x = tally (G x) c) ->
  forall xs c, fold_left step xs c = tally (xs ≫= G) c.
Proof.
  intros Hstep xs. induction xs as [|x xs IH]; intros c.
  - simpl. now rewrite tally_nil.
  - cbn [fold_left]. rewrite IH, Hstep.
    change ((x :: xs) ≫= G) with (G x ++ (xs ≫= G)). now rewrite tally_app.
Qed.

Lemma field_matches_spec r t : field_matches r t = spec_matches (r, t).
Proof.
  unfold field_matches, spec_matches, values_equal, close_floats. simpl.
  destruct (py_eq r t); [reflexivity|]. destruct r, t; reflexivity.
Qed.

Lemma count_field_tally tgt_vals c item :
  count_field tgt_vals c item
  = tally [(item.2, default VNone (Dict.get String.eqb tgt_vals item.1))] c.
Proof.
  destruct c as [t m], item as [field r_val]. unfold count_field, tally.
  rewrite field_matches_spec. simpl.
  destruct (spec_matches _); simpl; f_equal; lia.
Qed.

Lemma count_fields_tally ref_data tgt_data :
  count_fields ref_data tgt_data = tally (compared_fields ref_data tgt_data) (0, 0).
Proof.
  unfold count_fields, compared_fields. apply fold_tally. intros c kw.
  unfold count_keyword. apply fold_tally. intros c' cid.
  unfold count_card. apply fold_tally. intros c'' item.
  apply count_field_tally.
Qed.


(** *** The structural score *)

Lemma canon_step_keywords (data : canonical) kw :
  keywords_of (canon_step data kw) = {[get_keyword_name kw]} ∪ keywords_of data.
Proof.
  unfold keywords_of, canon_step. cbv zeta. rewrite keys_set.
  destruct (Dict.has_key String.eqb data (get_keyword_name kw)) eqn:E.
  - apply str_has_key, list_elem_of_In in E.
    apply (elem_of_list_to_set (C := gset string)) in E. set_solver.
  - rewrite list_to_set_app_L. simpl. set_solver.
Qed.

Lemma fold_canon_keywords kf (data : canonical) :
  keywords_of (fold_left canon_step kf data) = keywords_of data ∪ keyword_names kf.
Proof.
  revert data. induction kf as [|kw kf IH]; intros data.
  - unfold keyword_names. simpl. set_solver.
  - cbn [fold_left]. rewrite IH, canon_step_keywords.
    unfold keyword_names. simpl. set_solver.
Qed.

(** The keys of the canonical model are the keyword names of the deck. *)
Lemma canonicalize_keywords kf : keywords_of (canonicalize kf) = keyword_names kf.
Proof.
  unfold canonicalize. rewrite fold_canon_keywords.
  unfold keywords_of. simpl. set_solver.
Qed.

Lemma keyword_names_nonempty kf : kf <> [] -> keyword_names kf <> ∅.
Proof.
  destruct kf as [|kw kf]; [congruence|]. intros _.
  unfold keyword_names. simpl. set_solver.
Qed.


(** *** A deck against itself *)

(** No field of the deck holds a NaN. *)
Definition no_nan (kf : keyfile) : bool :=
  forallb (fun kw => forallb (fun name => negb (is_nan (getitem kw name)))
                             (field_names kw)) kf.

Lemma normalize_not_nan raw : is_nan raw = false -> is_nan (normalize raw) = false.
Proof.
  destruct raw as [| b | n | f | s]; try reflexivity. simpl.
  destruct (round_ndigits f 6) eqn:E; try reflexivity.
  apply PyFloatFacts.round_ndigits_nan in E. now subst.
Qed.

Lemma fields_nodup kw names (acc : fields_dict) :
  NoDup (Dict.keys acc) ->
  NoDup (Dict.keys (fold_left
           (fun fields name =>
              Dict.set String.eqb fields name (normalize (getitem kw name)))
           names acc)).
Proof.
  revert acc. induction names as [|n names IH]; intros acc H; [exact H|].
  cbn [fold_left]. apply IH. now apply str_keys_nodup.
Qed.

Lemma card_fields_nodup kw : NoDup (Dict.keys (card_fields kw)).
Proof. apply fields_nodup. constructor. Qed.

Lemma fields_values kw names (acc : fields_dict) f v :
  In (f, v)
     (fold_left (fun fields name =>
                   Dict.set String.eqb fields name (normalize (getitem kw name)))
                names acc) ->
  In (f, v) acc
  \/ exists name, In name names /\ v = normalize (getitem kw name).
Proof.
  revert acc. induction names as [|n names IH]; intros acc H; [now left|].
  cbn [fold_left] in H. apply IH in H as [H | (name & Hin & Hv)].
  - apply in_set in H as [H | H]; [now left|].
    right. exists n. split; [now left|exact H].
  - right. exists name. split; [now right|exact Hv].
Qed.

Lemma card_fields_values kw f v :
  In (f, v) (card_fields kw) ->
  exists name, In name (field_names kw) /\ v = normalize (getitem kw name).
Proof.
  intros H. apply fields_values in H as [[] | H]. exact H.
Qed.

(** Every record of a canonical model is the field dictionary of a card. *)
Definition records_from (kf : keyfile) (data : canonical) : Prop :=
  forall n cards cid fd,
    In (n, cards) data -> In (cid, fd) cards ->
    exists kw, In kw kf /\ fd = card_fields kw.

Lemma canon_step_records kf (data : canonical) kw :
  In kw kf -> records_from kf data -> records_from kf (canon_step data kw).
Proof.
  intros Hkw Hdata n cards cid fd Hn Hcid.
  unfold canon_step in Hn. cbv zeta in Hn.
  apply in_set in Hn as [Hn | Hn]; [eauto|]. simpl in Hn. subst cards.
  apply in_set in Hcid as [Hcid | Hcid]; [|simpl in Hcid; eauto].
  destruct (Dict.get String.eqb data (get_keyword_name kw)) as [old|] eqn:E;
    [|destruct Hcid].
  apply get_in in E as [n' Hn']. simpl in Hcid. eauto.
Qed.

Lemma canonicalize_records kf : records_from kf (canonicalize kf).
Proof.
  unfold canonicalize.
  assert (H : forall l (data : canonical),
             (forall kw, In kw l -> In kw kf) -> records_from kf data ->
             records_from kf (fold_left canon_step l data)).
  { induction l as [|kw l IH]; intros data Hl Hdata; [exact Hdata|].
    cbn [fold_left]. apply IH; [intros; apply Hl; now right|].
    apply canon_step_records; [apply Hl; now left|exact Hdata]. }
  apply H; [auto|]. intros n cards cid fd [].
Qed.

Lemma default_get_in {K V} (eqb : K -> K -> bool) (d : list (K * list V)) k x :
  In x (default [] (Dict.get eqb d k)) ->
  exists k', In (k', default [] (Dict.get eqb d k)) d.
Proof.
  destruct (Dict.get eqb d k) as [l|] eqn:E; [|intros []].
  intros _. simpl. eapply get_in; eauto.
Qed.

(** Compared with itself, every field of a deck without NaN matches. *)
Lemma self_pairs_match kf p :
  no_nan kf = true ->
  p ∈ compared_fields (canonicalize kf) (canonicalize kf) ->
  spec_matches p = true.
Proof.
  intros Hnan Hp. unfold compared_fields in Hp.
  apply list_elem_of_bind in Hp as (kw & Hp & _).
  apply list_elem_of_bind in Hp as (cid & Hp & _).
  apply list_elem_of_bind in Hp as (item & Hp & Hitem).
  apply list_elem_of_singleton in Hp. subst p.
  apply list_elem_of_In in Hitem.
  set (cards := default [] (Dict.get String.eqb (canonicalize kf) kw)) in *.
  set (vals := default [] (Dict.get py_eq cards cid)) in *.
  destruct (default_get_in _ _ _ _ Hitem) as [cid' Hvals]. fold vals in Hvals.
  assert (Hc : In (cid', vals) cards) by exact Hvals.
  destruct (default_get_in String.eqb (canonicalize kf) kw (cid', vals) Hc)
    as [n Hcards]. fold cards in Hcards.
  destruct (canonicalize_records kf n cards cid' vals Hcards Hc) as (kw0 & Hkw0 & Hv).
  clearbody vals. subst vals. destruct item as [f v]. cbn [fst snd].
  rewrite (str_get_item _ _ _ (card_fields_nodup kw0) Hitem). simpl.
  unfold spec_matches, values_equal. simpl.
  apply card_fields_values in Hitem as (name & Hname & ->).
  rewrite py_eq_refl; [reflexivity|]. apply normalize_not_nan.
  unfold no_nan in Hnan. rewrite forallb_forall in Hnan.
  specialize (Hnan kw0 Hkw0). rewrite forallb_forall in Hnan.
  apply negb_true_iff. now apply Hnan.
Qed.

Lemma filter_all {A} (p : A -> bool) l :
  (forall x, In x l -> p x = true) -> List.filter p l = l.
Proof.
  induction l as [|a l IH]; intros H; [reflexivity|]. simpl.
  rewrite (H a) by now left. f_equal. apply IH. intros; apply H. now right.
Qed.

Lemma self_counts kf :
  no_nan kf = true ->
  (count_fields (canonicalize kf) (canonicalize kf)).2
  = (count_fields (canonicalize kf) (canonicalize kf)).1.
Proof.
  intros Hnan. rewrite count_fields_tally. unfold tally. simpl.
  rewrite filter_all; [reflexivity|].
  intros p Hp. apply (self_pairs_match kf p Hnan). now apply list_elem_of_In.
Qed.

Lemma self_struct_score kf :
  kf <> [] -> struct_score (canonicalize kf) (canonicalize kf) = PyFloatFacts.one.
Proof.
  intros Hkf. unfold struct_score. rewrite canonicalize_keywords.
  pose proof (keyword_names_nonempty kf Hkf) as Hne.
  generalize dependent (keyword_names kf). intros names Hne.
  assert (Hi : names ∩ names = names) by set_solver.
  assert (Hu : names ∪ names = names) by set_solver.
  rewrite Hi, Hu.
  destruct (decide _) as [He|_]; [contradiction|].
  apply PyFloatFacts.int_truediv_self.
  destruct (size names) eqn:E; [|lia].
  apply size_empty_iff, leibniz_equiv in E. contradiction.
Qed.

(** The floats 100.0 and 20.0. *)
Definition percent_100 : spec_float := of_decimal false 1000 (-1).
Definition percent_20 : spec_float := of_decimal false 200 (-1).

(** C4 (self-similarity).  A deck that is not empty, holds no NaN and has
    a field to compare with itself ([total_fields > 0]) scores 100.0
    against itself. *)
Theorem self_similarity kf :
  kf <> [] ->
  no_nan kf = true ->
  0 < (count_fields (canonicalize kf) (canonicalize kf)).1 ->
  calculate_score kf kf = percent_100.
Proof.
  intros Hkf Hnan Htotal. unfold calculate_score.
  rewrite (self_struct_score kf Hkf). unfold param_score.
  pose proof (self_counts kf Hnan) as Hm.
  destruct (count_fields (canonicalize kf) (canonicalize kf)) as [t m].
  simpl in Hm, Htotal. subst m.
  apply Z.ltb_lt in Htotal as Ht. rewrite Ht.
  rewrite PyFloatFacts.int_truediv_self by assumption.
  vm_compute. reflexivity.
Qed.

(** Without any field to compare, a deck scores 20.0 against itself: the
    parametric score is 0 when [total_fields] is 0. *)
Lemma self_score_without_fields kf :
  kf <> [] ->
  (count_fields (canonicalize kf) (canonicalize kf)).1 = 0 ->
  calculate_score kf kf = percent_20.
Proof.
  intros Hkf Htotal. unfold calculate_score.
  rewrite (self_struct_score kf Hkf). unfold param_score.
  destruct (count_fields (canonicalize kf) (canonicalize kf)) as [t m].
  simpl in Htotal. subst t. vm_compute. reflexivity.
Qed.

(** *** Concrete decks *)

(** A card from the list of its fields. *)
Definition card (kw_name : string) (fields : list (string * pyval)) : keyword :=
  Keyword kw_name (map fst fields)
          (fun name => default VNone (Dict.get String.eqb fields name)).

(** A deck whose only card has no field. *)
Definition bare_deck : keyfile := [card "*KEYWORD" []].

(** A deck that is not empty scores 20.0 against itself. *)
Lemma bare_deck_scores_20 :
  bare_deck <> [] /\ calculate_score bare_deck bare_deck = percent_20
  /\ calculate_score bare_deck bare_deck <> percent_100.
Proof.
  split; [discriminate|]. split; [vm_compute; reflexivity|].
  vm_compute. discriminate.
Qed.

Definition small_deck : keyfile :=
  [card "*PART" [("pid", VInt 1); ("secid", VInt 10); ("title", VStr " plate ")];
   card "*CONTROL_TERMINATION" [("endtim", VFloat (of_decimal false 10000001 (-7)))];
   card "*CONTROL_TERMINATION" [("endtim", VFloat (of_decimal false 25 (-1)))]].

Lemma self_similarity_witness : calculate_score small_deck small_deck = percent_100.
Proof.
  apply self_similarity.
  - discriminate.
  - vm_compute. reflexivity.
  - vm_compute. reflexivity.
Defined.


Lemma idless_cards_share_global_witness :
  card_id (card "*CONTROL_TERMINATION" [("endtim", VFloat (of_decimal false 25 (-1)))])
  = VStr "Global"
  /\ lookup_card (canonicalize small_deck) "*CONTROL_TERMINATION" (VStr "Global")
     = Some [("endtim", VFloat (of_decimal false 25 (-1)))]
  /\ Dict.get String.eqb (canonicalize small_deck) "*CONTROL_TERMINATION"
     = Some [(VStr "Global", [("endtim", VFloat (of_decimal false 25 (-1)))])].
Proof.
  pose proof (idless_cards_share_global
                [card "*PART" [("pid", VInt 1); ("secid", VInt 10);
                               ("title", VStr " plate ")];
                 card "*CONTROL_TERMINATION"
                      [("endtim", VFloat (of_decimal false 10000001 (-7)))]]
                (card "*CONTROL_TERMINATION"
                      [("endtim", VFloat (of_decimal false 25 (-1)))])
                [] eq_refl eq_refl) as (H1 & H2 & H3).
  split; [exact H1|]. split; [exact H2|].
  apply H3; reflexivity.
Defined.

End SimilarityFacts.

(** ** Claims that span the three tools *)

Module Claims.
Import Text PyFloat.

(** C3 (duplicate identifiers).  In the canonical model of the similarity
    engine and in the part map of the batch diff the last definition of an
    id replaces the earlier ones whole.  The extraction keeps no map: every
    definition of a kept Part adds its Section and Material ids to the kept
    sets. *)
Theorem duplicate_definitions :
  (forall pre kw post,
      Similarity.py_eq (Similarity.card_id kw) (Similarity.card_id kw) = true ->
      forallb (fun kw' => negb (SimilarityFacts.overrides kw kw')) post = true ->
      SimilarityFacts.lookup_card (Similarity.canonicalize (pre ++ kw :: post))
        (Similarity.get_keyword_name kw) (Similarity.card_id kw)
      = Some (Similarity.card_fields kw))
  /\ (forall pre l rest pid p d,
         SS1.parse_deep_search (pre ++ l :: rest) = Ok d ->
         SS1Facts.part_definition l rest = Some (pid, p) ->
         SS1Facts.defines_later pid rest = false ->
         SS1.parts d !! pid = Some (SS1.link_part (SS1.sections d) p))
  /\ (forall pre l rest,
         startswith (strip l) "*PART" = true ->
         S1Facts.keep_le (S1.part_lookahead 4 rest S1.no_keep)
                         (S1.pass1 (pre ++ l :: rest))).
Proof.
  split; [|split].
  - apply SimilarityFacts.last_card_wins.
  - apply SS1Facts.last_part_definition_wins.
  - apply S1Facts.every_part_definition_counts.
Qed.

Definition first_part : Similarity.keyword :=
  SimilarityFacts.card "*PART" [("pid", Similarity.VInt 1); ("secid", Similarity.VInt 10)].

Definition second_part : Similarity.keyword :=
  SimilarityFacts.card "*PART" [("pid", Similarity.VInt 1); ("secid", Similarity.VInt 20)].

Lemma duplicate_definitions_witness :
  SimilarityFacts.lookup_card (Similarity.canonicalize [first_part; second_part])
    "*PART" (Similarity.VInt 1)
  = Some [("pid", Similarity.VInt 1); ("secid", Similarity.VInt 20)]
  /\ (match SS1.parse_deep_search SS1Facts.duplicate_file with
      | Ok d => SS1.secid <$> SS1.parts d !! 1
      | Raise _ => None
      end) = Some 20
  /\ 10 ∈ S1.keep_sec_ids (S1.pass1 S1Facts.duplicate_deck).
Proof.
  destruct duplicate_definitions as (Hsim & Hdiff & Hext).
  split; [|split].
  - exact (Hsim [first_part] second_part [] eq_refl eq_refl).
  - destruct (SS1.parse_deep_search SS1Facts.duplicate_file) as [d|e] eqn:E;
      [|vm_compute in E; discriminate E].
    rewrite (Hdiff (map line ["*KEYWORD"; "*PART"; "first"; "1 10 100"])
                   (line "*PART")
                   (map line ["second"; "1 20 100"; "*SECTION_SHELL"; "10 2"; "1.0";
                              "*SECTION_SHELL"; "20 2"; "2.5"; "*END"])
                   1 (SS1.Part "second" 20 fzero) d E eq_refl eq_refl).
    simpl. unfold SS1.link_part. simpl. destruct (_ !! _); reflexivity.
  - destruct (Hext (map line ["*KEYWORD"])
                   (line "*PART")
                   (map line ["1 10 100"; "*PART"; "1 20 100";
                              "*SECTION_SHELL"; "10 2"; "1.0 1.0 1.0 1.0";
                              "*SECTION_SHELL"; "20 2"; "2.5 2.5 2.5 2.5"; "*END"])
                   eq_refl) as (_ & Hsec & _).
    apply Hsec. refine (bool_decide_unpack _ _); vm_compute; exact I.
Defined.

(** Part 1 is defined with Section 10 and again with Section 20: the
    extraction keeps both Section ids and writes both Section blocks, the
    first definition's Section 10 included. *)
Lemma first_definition_still_used :
  10 ∈ S1.keep_sec_ids (S1.pass1 S1Facts.duplicate_deck)
  /\ 20 ∈ S1.keep_sec_ids (S1.pass1 S1Facts.duplicate_deck)
  /\ S1.extract_odd_components "a.dyn" S1Facts.duplicate_deck
     = Some (S1.file_header "a.dyn"
             ++ map line ["*PART"; "1 10 100"; "*PART"; "1 20 100";
                          "*SECTION_SHELL"; "10 2"; "1.0 1.0 1.0 1.0";
                          "*SECTION_SHELL"; "20 2"; "2.5 2.5 2.5 2.5"]
             ++ S1.file_footer).
Proof.
  split; [|split].
  - refine (bool_decide_unpack _ _); vm_compute; exact I.
  - refine (bool_decide_unpack _ _); vm_compute; exact I.
  - vm_compute. reflexivity.
Qed.

(** C9 (identifiers).  Every id in the maps of a parsed file of the batch
    diff is an integer that is not negative, zero included; every Part id
    the extraction keeps is an odd integer, of either sign. *)
Theorem recorded_identifiers :
  (forall lines d,
      SS1.parse_deep_search lines = Ok d ->
      (forall pid p, SS1.parts d !! pid = Some p -> 0 <= pid /\ 0 <= SS1.secid p)
      /\ (forall sid v, SS1.sections d !! sid = Some v -> 0 <= sid))
  /\ (forall lines pid,
         pid ∈ S1.keep_pids (S1.pass1 lines) -> S1.is_odd pid = true).
Proof.
  split.
  - intros lines d H. exact (SS1Facts.parsed_ids_nonneg lines d H).
  - apply S1Facts.kept_parts_odd.
Qed.

Lemma recorded_identifiers_witness :
  (0 <= 0 /\ 0 <= 0) /\ S1.is_odd (-3) = true.
Proof.
  destruct recorded_identifiers as (Hdiff & Hext). split.
  - destruct (SS1.parse_deep_search SS1Facts.zero_file) as [d|e] eqn:E;
      [|vm_compute in E; discriminate E].
    destruct (Hdiff _ _ E) as [Hp _].
    apply (Hp 0 (SS1.Part "Unknown" 0 fzero)).
    vm_compute in E. injection E as <-. vm_compute. reflexivity.
  - apply (Hext S1Facts.negative_deck).
    refine (bool_decide_unpack _ _); vm_compute; exact I.
Defined.

(** Zero and negative numbers pass the id conversions: [safe_int] returns
    them, the extraction keeps the Part -3 with Section 0 and Material -7,
    and the batch diff records the Part 0. *)
Lemma zero_and_negative_ids :
  S1.safe_int "0" = Some 0
  /\ S1.safe_int "-3" = Some (-3)
  /\ (-3) ∈ S1.keep_pids (S1.pass1 S1Facts.negative_deck)
  /\ 0 ∈ S1.keep_sec_ids (S1.pass1 S1Facts.negative_deck)
  /\ (-7) ∈ S1.keep_mat_ids (S1.pass1 S1Facts.negative_deck)
  /\ SS1.get_numeric_line "0 0 0" = Ok (Some (0, 0))
  /\ (match SS1.parse_deep_search SS1Facts.zero_file with
      | Ok d => SS1.secid <$> SS1.parts d !! 0
      | Raise _ => None
      end) = Some 0.
Proof.
  repeat split; try (vm_compute; reflexivity);
    refine (bool_decide_unpack _ _); vm_compute; exact I.
Qed.

End Claims.

(** ** More on the extraction *)

Module S1More.
Import Text TextFacts S1 S1Facts.

#[local] Arguments startswith : simpl never.
#[local] Arguments strip : simpl never.

(** *** What is written comes from the input, in order *)

Lemma filter_sublist {A} (p : A -> bool) (l : list A) : List.filter p l `sublist_of` l.
Proof.
  induction l as [|a l IH]; simpl; [constructor|].
  destruct (p a); [now apply sublist_skip|now apply sublist_cons].
Qed.

Lemma pass3_block_sublist k nodes b b' :
  pass3_block k nodes b = Some b' -> (b'.1 :: b'.2) `sublist_of` (b.1 :: b.2).
Proof.
  unfold pass3_block.
  destruct (kind_of b.1);
    repeat match goal with |- context [if ?c then _ else _] => destruct c end;
    try discriminate; intros [= <-]; simpl;
    try reflexivity; apply sublist_skip, filter_sublist.
Qed.

Lemma flatten_omap_sublist k nodes bs :
  flatten (omap (pass3_block k nodes) bs) `sublist_of` flatten bs.
Proof.
  induction bs as [|b bs IH]; [constructor|].
  cbn [omap list_omap]. destruct (pass3_block k nodes b) as [b'|] eqn:E.
  - unfold flatten in *. cbn [flat_map].
    change (b'.1 :: b'.2 ++ flat_map (fun b0 : block => b0.1 :: b0.2)
                               (omap (pass3_block k nodes) bs))
      with ((b'.1 :: b'.2) ++ flat_map (fun b0 : block => b0.1 :: b0.2)
                                (omap (pass3_block k nodes) bs)).
    change (b.1 :: b.2 ++ flat_map (fun b0 : block => b0.1 :: b0.2) bs)
      with ((b.1 :: b.2) ++ flat_map (fun b0 : block => b0.1 :: b0.2) bs).
    apply sublist_app; [eapply pass3_block_sublist; eauto|exact IH].
  - unfold flatten in *. cbn [flat_map].
    change (b.1 :: b.2 ++ flat_map (fun b0 : block => b0.1 :: b0.2) bs)
      with ((b.1 :: b.2) ++ flat_map (fun b0 : block => b0.1 :: b0.2) bs).
    now apply sublist_inserts_l.
Qed.

Lemma pass3_sublist k nodes ls : pass3 k nodes ls `sublist_of` ls.
Proof.
  unfold pass3. rewrite pass3_blocks by lia.
  rewrite (blocks_of_lines ls) at 2.
  apply sublist_inserts_l, flatten_omap_sublist.
Qed.

(** X1 (the output is a filtered copy).
    Between the three header lines and the footer, the output is a
    subsequence of the input: lines are dropped, never changed, added or
    reordered. *)
Theorem output_is_subsequence name lines out :
  extract_odd_components name lines = Some out ->
  exists body,
    out = file_header name ++ body ++ file_footer /\ body `sublist_of` lines.
Proof.
  intros H. apply extract_inv in H as [_ ->].
  eexists. split; [reflexivity|apply pass3_sublist].
Qed.

Lemma output_is_subsequence_witness :
  exists body,
    scenario_output "a.dyn" = file_header "a.dyn" ++ body ++ file_footer
    /\ body `sublist_of` scenario_deck.
Proof.
  apply (output_is_subsequence "a.dyn" scenario_deck). vm_compute. reflexivity.
Defined.

(** *** The blocks of the output *)

Lemma output_block_iff name k nodes ls b' :
  kind_of b'.1 <> KOther ->
  (In b' (deck_blocks (file_header name ++ pass3 k nodes ls ++ file_footer))
   <-> exists b, In b (deck_blocks ls) /\ pass3_block k nodes b = Some b').
Proof.
  intros Hk. split; [intros H; now apply in_output_blocks in H|].
  intros (b & Hb & E). rewrite output_blocks. right. apply in_or_app. left.
  apply list_elem_of_In, list_elem_of_omap. exists b.
  split; [now apply list_elem_of_In|exact E].
Qed.

(** The Part that owns an element record: its second token. *)
Definition owner (l : string) : option Z :=
  match re_split (strip l) with
  | _ :: t1 :: _ => safe_int t1
  | _ => None
  end.

Lemma element_line_kept_owner pids l :
  element_line_kept pids l = true -> exists pid, owner l = Some pid /\ pid ∈ pids.
Proof.
  unfold element_line_kept, owner.
  destruct (re_split (strip l)) as [|t0 [|t1 [|t2 ts]]]; try discriminate.
  destruct (safe_int t1) as [pid|]; [|discriminate].
  intros H. apply bool_decide_eq_true in H. eauto.
Qed.

(** What an element record of the output is in the input. *)
Lemma output_element_inv name lines out el :
  extract_odd_components name lines = Some out ->
  el ∈ element_records out ->
  exists b, In b (deck_blocks lines) /\ kind_of b.1 = KElement /\ In el b.2
            /\ is_comment el = false
            /\ element_line_kept (keep_pids (pass1 lines)) el = true.
Proof.
  intros Hex Hel. apply extract_inv in Hex as [_ ->].
  apply in_element_records in Hel as (b' & Hb' & Hk' & Hel & Hc).
  apply in_output_blocks in Hb' as (b & Hb & Hkeep); [|congruence].
  pose proof (pass3_block_header _ _ _ _ Hkeep) as Hhdr.
  rewrite Hhdr in Hk'. unfold pass3_block in Hkeep. rewrite Hk' in Hkeep.
  injection Hkeep as <-. simpl in Hel.
  apply filter_In in Hel as [Hel Hw]. unfold written_line in Hw.
  rewrite Hc in Hw. simpl in Hw. exists b. auto.
Qed.

(** X2 (written elements belong to odd Parts).
    Every element record of the output belongs to a kept Part, and the
    id of that Part is odd. *)
Theorem kept_elements_of_odd_parts name lines out el :
  extract_odd_components name lines = Some out ->
  el ∈ element_records out ->
  exists pid, owner el = Some pid /\ is_odd pid = true
              /\ pid ∈ keep_pids (pass1 lines).
Proof.
  intros Hex Hel.
  destruct (output_element_inv _ _ _ _ Hex Hel) as (b & _ & _ & _ & _ & Hkept).
  apply element_line_kept_owner in Hkept as (pid & Ho & Hp).
  exists pid. split; [exact Ho|]. split; [|exact Hp].
  now apply (kept_parts_odd lines).
Qed.

Lemma kept_elements_of_odd_parts_witness :
  exists pid, owner (line "1 1 5 6") = Some pid /\ is_odd pid = true
              /\ pid ∈ keep_pids (pass1 scenario_deck).
Proof.
  apply (kept_elements_of_odd_parts "a.dyn" scenario_deck (scenario_output "a.dyn")).
  - vm_compute. reflexivity.
  - apply list_elem_of_In. vm_compute. tauto.
Defined.

(** *** No Node is kept that no kept element refers to *)








(** *** Part, Section and Material blocks *)

(** The set that decides whether a block of the kind is written. *)
Definition deciding_set (k : keep_sets) (kd : kind) : option (gset Z) :=
  match kd with
  | KPart => Some (keep_pids k)
  | KSection => Some (keep_sec_ids k)
  | KMaterial => Some (keep_mat_ids k)
  | _ => None
  end.

Lemma pass3_block_id k nodes b keep :
  deciding_set k (kind_of b.1) = Some keep ->
  pass3_block k nodes b = if existsb (id_line keep) b.2 then Some b else None.
Proof.
  unfold deciding_set, pass3_block.
  destruct (kind_of b.1); try discriminate; now intros [= <-].
Qed.

(** X4 (Part, Section and Material blocks).
    A Part, Section or Material block of the input is in the output, whole
    and unchanged, exactly when one of its records starts with an id of
    the deciding set: any record, not only the first. *)
Theorem id_block_written_whole name lines out b keep :
  extract_odd_components name lines = Some out ->
  In b (deck_blocks lines) ->
  deciding_set (pass1 lines) (kind_of b.1) = Some keep ->
  (In b (deck_blocks out) <-> existsb (id_line keep) b.2 = true).
Proof.
  intros Hex Hb Hset. apply extract_inv in Hex as [_ ->].
  assert (Hk : kind_of b.1 <> KOther).
  { intros E. rewrite E in Hset. discriminate. }
  rewrite (output_block_iff _ _ _ _ _ Hk). split.
  - intros (b0 & Hb0 & E).
    pose proof (pass3_block_header _ _ _ _ E) as Hh.
    rewrite (pass3_block_id _ _ b0 keep) in E by now rewrite <- Hh.
    destruct (existsb (id_line keep) b0.2) eqn:Hex; [|discriminate].
    now injection E as <-.
  - intros Hex. exists b. split; [exact Hb|].
    rewrite (pass3_block_id _ _ b keep Hset). now rewrite Hex.
Qed.

Lemma id_block_written_whole_witness :
  In (line "*SECTION_SHELL", map line ["10 2"; "1.0 1.0 1.0 1.0"])
     (deck_blocks (scenario_output "a.dyn"))
  <-> existsb (id_line (keep_sec_ids (pass1 scenario_deck)))
              (map line ["10 2"; "1.0 1.0 1.0 1.0"]) = true.
Proof.
  apply (id_block_written_whole "a.dyn" scenario_deck (scenario_output "a.dyn")
           (line "*SECTION_SHELL", map line ["10 2"; "1.0 1.0 1.0 1.0"])).
  - vm_compute. reflexivity.
  - vm_compute. tauto.
  - reflexivity.
Defined.

(** *** Sections and Materials are kept for an odd Part *)

(** The id a Part record gives for its Section (second token) or its
    Material (third token). *)
Definition named_id (kd : kind) (l : string) : option Z :=
  match kd, re_split (strip l) with
  | KSection, _ :: t1 :: _ => safe_int t1
  | KMaterial, _ :: _ :: t2 :: _ => safe_int t2
  | _, _ => None
  end.

(** Every kept Section or Material id is named by a record of [lines]
    that starts with an odd id. *)
Definition named_by_odd (lines : list string) (k : keep_sets) : Prop :=
  forall kd keep x,
    deciding_set k kd = Some keep -> kd <> KPart -> x ∈ keep ->
    exists l pid, In l lines /\ is_comment l = false /\ first_id l = Some pid
                  /\ is_odd pid = true /\ named_id kd l = Some x.

Lemma part_data_named lines l k :
  In l lines -> is_comment l = false ->
  named_by_odd lines k -> named_by_odd lines (part_data (re_split (strip l)) k).
Proof.
  intros Hl Hc Hk kd keep x Hset Hkd Hx.
  unfold part_data in Hset.
  destruct (re_split (strip l)) as [|t0 ts] eqn:Et; [now apply (Hk kd keep)|].
  destruct (safe_int t0) as [pid|] eqn:E0; [|now apply (Hk kd keep)].
  destruct (is_odd pid) eqn:Eo; [|now apply (Hk kd keep)].
  assert (Hid : first_id l = Some pid) by (unfold first_id; now rewrite Et).
  destruct kd; try discriminate; try congruence; simpl in Hset;
    injection Hset as <-.
  - destruct ts as [|t1 ts']; [now apply (Hk KSection (keep_sec_ids k))|].
    destruct (safe_int t1) as [sid|] eqn:E1;
      [|now apply (Hk KSection (keep_sec_ids k))].
    apply elem_of_union in Hx as [Hx|Hx];
      [|now apply (Hk KSection (keep_sec_ids k))].
    apply elem_of_singleton in Hx. subst x. exists l, pid.
    repeat split; try assumption. unfold named_id. now rewrite Et.
  - destruct ts as [|t1 [|t2 ts']];
      try (now apply (Hk KMaterial (keep_mat_ids k))).
    destruct (safe_int t2) as [mid|] eqn:E2;
      [|now apply (Hk KMaterial (keep_mat_ids k))].
    apply elem_of_union in Hx as [Hx|Hx];
      [|now apply (Hk KMaterial (keep_mat_ids k))].
    apply elem_of_singleton in Hx. subst x. exists l, pid.
    repeat split; try assumption. unfold named_id. now rewrite Et.
Qed.

Lemma part_lookahead_named lines fuel rest k :
  (forall l, In l rest -> In l lines) ->
  named_by_odd lines k -> named_by_odd lines (part_lookahead fuel rest k).
Proof.
  revert rest. induction fuel as [|f IH]; intros rest Hin Hk; [exact Hk|].
  destruct rest as [|l r]; [exact Hk|]. simpl.
  destruct (is_header l); [exact Hk|].
  destruct (is_comment l) eqn:Ec.
  - apply IH; [|exact Hk]. intros; apply Hin; now right.
  - apply part_data_named; auto. apply Hin. now left.
Qed.

Lemma pass1_loop_named lines ls k :
  (forall l, In l ls -> In l lines) ->
  named_by_odd lines k -> named_by_odd lines (pass1_loop ls k).
Proof.
  revert k. induction ls as [|l r IH]; intros k Hin Hk; [exact Hk|].
  cbn [pass1_loop]. apply IH; [intros; apply Hin; now right|].
  destruct (startswith (strip l) "*PART"); [|exact Hk].
  apply part_lookahead_named; [|exact Hk]. intros; apply Hin; now right.
Qed.

Lemma pass1_named lines : named_by_odd lines (pass1 lines).
Proof.
  apply pass1_loop_named; [auto|].
  intros kd keep x Hset Hkd Hx.
  destruct kd; try discriminate; try congruence; simpl in Hset;
    injection Hset as <-; set_solver.
Qed.

(** X5 (Sections and Materials of odd Parts).
    A Section or Material block is written only for an odd Part: one of
    its records starts with the id that a record of the input starting
    with an odd id gives as its Section (second token) or Material (third
    token). *)
Theorem kept_properties_are_used name lines out b :
  extract_odd_components name lines = Some out ->
  In b (deck_blocks out) ->
  kind_of b.1 = KSection \/ kind_of b.1 = KMaterial ->
  exists rec x l pid,
    In rec b.2 /\ first_id rec = Some x
    /\ In l lines /\ first_id l = Some pid /\ is_odd pid = true
    /\ named_id (kind_of b.1) l = Some x.
Proof.
  intros Hex Hb Hk. apply extract_inv in Hex as [_ ->].
  apply in_output_blocks in Hb as (b0 & Hb0 & E);
    [|destruct Hk as [Hk|Hk]; rewrite Hk; discriminate].
  pose proof (pass3_block_header _ _ _ _ E) as Hh. rewrite Hh in *.
  assert (Hset : exists keep,
             deciding_set (pass1 lines) (kind_of b0.1) = Some keep
             /\ kind_of b0.1 <> KPart).
  { destruct Hk as [Hk|Hk]; rewrite Hk; simpl; eauto. }
  destruct Hset as (keep & Hset & Hnp).
  rewrite (pass3_block_id _ _ b0 keep Hset) in E.
  destruct (existsb (id_line keep) b0.2) eqn:Hex; [|discriminate].
  injection E as <-. apply existsb_exists in Hex as (rec & Hrec & Hid).
  unfold id_line in Hid. apply andb_true_iff in Hid as [_ Hid].
  apply first_id_in_spec in Hid as (x & Hx & Hin).
  destruct (pass1_named lines _ _ _ Hset Hnp Hin) as (l & pid & Hl & _ & Hp & Ho & Hn).
  exists rec, x, l, pid. auto 10.
Qed.

Lemma kept_properties_are_used_witness :
  exists rec x l pid,
    In rec (map line ["10 2"; "1.0 1.0 1.0 1.0"]) /\ first_id rec = Some x
    /\ In l scenario_deck /\ first_id l = Some pid /\ is_odd pid = true
    /\ named_id (kind_of (line "*SECTION_SHELL")) l = Some x.
Proof.
  apply (kept_properties_are_used "a.dyn" scenario_deck (scenario_output "a.dyn")
           (line "*SECTION_SHELL", map line ["10 2"; "1.0 1.0 1.0 1.0"])).
  - vm_compute. reflexivity.
  - vm_compute. tauto.
  - left. reflexivity.
Defined.

(** *** Node, element and mass blocks *)

(** X6 (headers and comments of filtered blocks).
    The header of every Node, element and mass block of the input is
    written, with every comment of the block, whatever becomes of its
    records. *)
Theorem filtered_block_header_written name lines out b :
  extract_odd_components name lines = Some out ->
  In b (deck_blocks lines) ->
  match kind_of b.1 with KNode | KElement | KMass => True | _ => False end ->
  exists d, In (b.1, d) (deck_blocks out)
            /\ forall l, In l b.2 -> is_comment l = true -> In l d.
Proof.
  intros Hex Hb Hk. apply extract_inv in Hex as [_ ->].
  set (k := pass1 lines). set (nodes := pass2 (keep_pids k) lines).
  assert (Hkeep : exists kept,
             pass3_block k nodes b = Some (b.1, List.filter (written_line kept) b.2)).
  { unfold pass3_block. destruct (kind_of b.1); try contradiction; eauto. }
  destruct Hkeep as [kept Hkeep].
  exists (List.filter (written_line kept) b.2). split.
  - apply output_block_iff; [|eauto].
    simpl. intros E. rewrite E in Hk. exact Hk.
  - intros l Hl Hc. apply filter_In. split; [exact Hl|].
    unfold written_line. now rewrite Hc.
Qed.

Lemma filtered_block_header_written_witness :
  exists d, In (line "*NODE", d) (deck_blocks (scenario_output "a.dyn"))
            /\ forall l,
                 In l (map line ["5 0.0 0.0 0.0"; "6 1.0 0.0 0.0";
                                 "7 0.0 1.0 0.0"; "8 1.0 1.0 0.0"]) ->
                 is_comment l = true -> In l d.
Proof.
  apply (filtered_block_header_written "a.dyn" scenario_deck (scenario_output "a.dyn")
           (line "*NODE", map line ["5 0.0 0.0 0.0"; "6 1.0 0.0 0.0";
                                    "7 0.0 1.0 0.0"; "8 1.0 1.0 0.0"])).
  - vm_compute. reflexivity.
  - vm_compute. tauto.
  - exact I.
Defined.









(** *** Parts with a title line *)

(** Every Part header of the deck is followed at once by a line that is
    not a header, not a comment, and does not start with an integer. *)
Fixpoint titled (ls : list string) : bool :=
  match ls with
  | [] => true
  | h :: rest =>
      (if startswith (strip h) "*PART" then
         match rest with
         | t :: _ =>
             negb (is_header t) && negb (is_comment t)
             && match first_id t with Some _ => false | None => true end
         | [] => true
         end
       else true)
      && titled rest
  end.

Lemma pass1_titled ls k : titled ls = true -> pass1_loop ls k = k.
Proof.
  revert k. induction ls as [|h rest IH]; intros k H; [reflexivity|].
  cbn [titled] in H. apply andb_true_iff in H as [Hh Hrest].
  cbn [pass1_loop]. rewrite IH by assumption.
  destruct (startswith (strip h) "*PART"); [|reflexivity].
  destruct rest as [|t rest']; [reflexivity|].
  apply andb_true_iff in Hh as [Hh Hid]. apply andb_true_iff in Hh as [Hhd Hc].
  apply negb_true_iff in Hhd, Hc. cbn [part_lookahead]. rewrite Hhd, Hc.
  unfold first_id in Hid. unfold part_data.
  destruct (re_split (strip t)) as [|t0 ts]; [reflexivity|].
  destruct (safe_int t0); [discriminate|reflexivity].
Qed.

(** X8 (Parts with a title line).
    Pass 1 reads the first line after a Part header that is not a
    comment.  When that line is the title of the Part, as in a deck where
    every Part has one, no Part is found and nothing is written. *)
Theorem titled_parts_are_missed name lines :
  titled lines = true -> extract_odd_components name lines = None.
Proof.
  intros H. unfold extract_odd_components, pass1.
  rewrite (pass1_titled _ _ H). simpl. now destruct (decide _).
Qed.

Definition titled_deck : list string :=
  map line ["*KEYWORD"; "*PART"; "Left plate"; "1 10 100";
            "*ELEMENT_SHELL"; "1 1 5 6 7 8"; "*END"].

Lemma titled_parts_are_missed_witness :
  extract_odd_components "a.dyn" titled_deck = None.
Proof. apply titled_parts_are_missed. vm_compute. reflexivity. Defined.

(** *** No element of a kept Part is lost *)

Lemma owner_element_line_kept pids l pid :
  owner l = Some pid -> pid ∈ pids ->
  (2 < length (re_split (strip l)))%nat ->
  element_line_kept pids l = true.
Proof.
  unfold owner, element_line_kept.
  destruct (re_split (strip l)) as [|t0 [|t1 [|t2 ts]]]; simpl; try lia;
    try discriminate.
  intros -> Hin _. now apply bool_decide_eq_true.
Qed.

(** X9 (no element of a kept Part is lost).
    Every element record of the input that has three tokens at least and
    whose second token is the id of a kept Part is an element record of
    the output, wherever its block stands in the deck. *)
Theorem elements_of_kept_parts_written name lines out el pid :
  extract_odd_components name lines = Some out ->
  el ∈ element_records lines ->
  owner el = Some pid ->
  pid ∈ keep_pids (pass1 lines) ->
  (2 < length (re_split (strip el)))%nat ->
  el ∈ element_records out.
Proof.
  intros Hex Hel Ho Hpid Hlen. apply extract_inv in Hex as [_ ->].
  apply in_element_records in Hel as (b & Hb & Hk & Hel & Hc).
  pose proof (owner_element_line_kept _ _ _ Ho Hpid Hlen) as Hkept.
  apply in_element_records.
  exists (b.1, List.filter (written_line
                              (element_line_kept (keep_pids (pass1 lines)))) b.2).
  split; [|split; [exact Hk|split; [|exact Hc]]].
  - apply output_block_iff; [simpl; congruence|].
    exists b. split; [exact Hb|]. unfold pass3_block. now rewrite Hk.
  - simpl. apply filter_In. split; [exact Hel|].
    unfold written_line. now rewrite Hkept, orb_true_r.
Qed.

Lemma elements_of_kept_parts_written_witness :
  line "1 1 5 6" ∈ element_records (scenario_output "a.dyn").
Proof.
  apply (elements_of_kept_parts_written "a.dyn" scenario_deck (scenario_output "a.dyn")
           (line "1 1 5 6") 1).
  - vm_compute. reflexivity.
  - apply list_elem_of_In. vm_compute. tauto.
  - vm_compute. reflexivity.
  - refine (bool_decide_unpack _ _). vm_compute. exact I.
  - vm_compute. lia.
Defined.

(** *** Everything else *)



End S1More.

(** ** More on the batch diff *)

Module SS1More.
Import Text TextFacts PyFloat SS1 SS1Facts.

#[local] Arguments startswith : simpl never.
#[local] Arguments strip : simpl never.
#[local] Arguments re_split : simpl never.
#[local] Arguments upper : simpl never.

(** *** The value of a Part *)

(** While the lines are read every Part carries the value [0.0]. *)
Definition unlinked (d : deck_data) : Prop :=
  forall pid p, parts d !! pid = Some p -> value p = fzero.

Lemma parse_line_unlinked l rest d d' :
  parse_line l rest d = Ok d' -> unlinked d -> unlinked d'.
Proof.
  intros H Hd pid p. rewrite (parse_line_parts _ _ _ _ H).
  unfold part_definition. destruct (is_part_header l); [|apply Hd].
  destruct (part_scan 4 1 l rest "Unknown") as [[[[a b]|] nm]|e]; try apply Hd.
  rewrite lookup_insert. case_decide; [|apply Hd]. now intros [= <-].
Qed.

Lemma parse_loop_unlinked ls d d' :
  parse_loop ls d = Ok d' -> unlinked d -> unlinked d'.
Proof.
  revert d. induction ls as [|l r IH]; intros d; [now intros [= <-]|].
  simpl. intros H Hd. apply rbind_ok in H as (d1 & H1 & H).
  eauto using parse_line_unlinked.
Qed.

Lemma unlinked_no_data : unlinked no_data.
Proof. intros pid p. simpl. rewrite lookup_empty. discriminate. Qed.

(** X11 (value of a Part).
    The value of every Part of a parsed file is the value recorded for
    the Section it names, and [0.0] when the file records none for it. *)
Theorem part_value_is_section_value lines d pid p :
  parse_deep_search lines = Ok d ->
  parts d !! pid = Some p ->
  value p = default fzero (sections d !! secid p).
Proof.
  unfold parse_deep_search. intros H.
  apply rbind_ok in H as (d0 & H0 & H). injection H as <-. simpl.
  rewrite lookup_fmap. destruct (parts d0 !! pid) as [q|] eqn:E; [|discriminate].
  simpl. intros [= <-]. unfold link_part.
  destruct (sections d0 !! secid q) as [v|] eqn:Es; simpl.
  - now rewrite Es.
  - rewrite Es. simpl.
    exact (parse_loop_unlinked _ _ _ H0 unlinked_no_data _ _ E).
Qed.

Definition parsed (lines : list string) : deck_data :=
  match parse_deep_search lines with
  | Ok d => d
  | Raise _ => no_data
  end.

Lemma part_value_is_section_value_witness :
  value (Part "Plate" 10 (float_of "-2.0"))
  = default fzero (sections (parsed negative_file) !! secid (Part "Plate" 10 (float_of "-2.0"))).
Proof.
  apply (part_value_is_section_value negative_file (parsed negative_file) 1).
  - vm_compute. reflexivity.
  - vm_compute. reflexivity.
Defined.

(** *** The flag *)

Lemma in_changes a b pid nm va vb :
  (pid, nm, va, vb) ∈ changes a b <->
  exists pa pb,
    parts a !! pid = Some pa /\ parts b !! pid = Some pb /\
    nm = name pa /\ va = value pa /\ vb = value pb /\ differs va vb = true.
Proof.
  unfold changes. rewrite list_elem_of_omap. split.
  - intros (pid' & _ & H).
    destruct (parts a !! pid') as [pa|] eqn:Ea; [|discriminate].
    destruct (parts b !! pid') as [pb|] eqn:Eb; [|discriminate].
    destruct (differs (value pa) (value pb)) eqn:Ed; [|discriminate].
    injection H as ? ? ? ?; subst. exists pa, pb. tauto.
  - intros (pa & pb & Ea & Eb & -> & -> & -> & Hd).
    exists pid. split.
    + apply elem_of_elements, elem_of_intersection.
      split; apply elem_of_dom; eauto.
    + now rewrite Ea, Eb, Hd.
Qed.

Lemma fsub_self_not_above v : fltb TOLERANCE (fabs (fsub v v)) = false.
Proof.
  destruct v as [[|]|[|]| |s m e]; try reflexivity.
  unfold fsub, SFsub. rewrite Z.sub_diag. reflexivity.
Qed.

Lemma differs_self v : differs v v = false.
Proof. unfold differs. now rewrite fsub_self_not_above. Qed.

(** X12 (equal values).
    Two files whose common Parts have the same values give an empty list
    of changes, whatever the values are (an infinity or a NaN read by
    [float] included). *)
Theorem equal_values_no_change a b :
  (forall pid pa pb,
      parts a !! pid = Some pa -> parts b !! pid = Some pb -> value pa = value pb) ->
  changes a b = [].
Proof.
  intros H. destruct (changes a b) as [|[[[pid nm] va] vb] cs] eqn:E; [reflexivity|].
  assert (Hin : (pid, nm, va, vb) ∈ changes a b) by (rewrite E; left).
  apply in_changes in Hin as (pa & pb & Ea & Eb & _ & -> & -> & Hd).
  rewrite (H _ _ _ Ea Eb), differs_self in Hd. discriminate.
Qed.

Lemma equal_values_no_change_witness :
  changes (parsed negative_file) (parsed negative_file) = [].
Proof.
  apply equal_values_no_change. intros pid pa pb Ha Hb.
  rewrite Ha in Hb. now injection Hb as <-.
Defined.

Lemma binary_round_abs s m e :
  SFabs (binary_round prec emax s m e) = SFabs (binary_round prec emax false m e).
Proof.
  unfold binary_round. destruct (shl_align _ _ _) as [mz ez].
  unfold binary_round_aux. destruct (shr_fexp _ _ _ _ _) as [mrs' e'].
  destruct (shr_fexp _ _ _ _ _) as [mrs'' e''].
  destruct (shr_m mrs''); try reflexivity. now destruct (_ <=? _).
Qed.

Lemma binary_normalize_abs_opp m e :
  SFabs (binary_normalize prec emax (- m) e false)
  = SFabs (binary_normalize prec emax m e false).
Proof.
  destruct m as [|p|p]; simpl; [reflexivity| |];
    now rewrite (binary_round_abs true).
Qed.

Lemma fabs_fsub_comm x y : fabs (fsub x y) = fabs (fsub y x).
Proof.
  destruct x as [[|]|[|]| |sx mx ex], y as [[|]|[|]| |sy my ey]; try reflexivity.
  unfold fabs, fsub, SFsub. rewrite (Z.min_comm ey ex).
  rewrite <- binary_normalize_abs_opp. f_equal. f_equal. lia.
Qed.

Lemma differs_comm x y : differs x y = differs y x.
Proof.
  unfold differs. now rewrite fabs_fsub_comm, orb_comm.
Qed.

(** X13 (order of the two files).
    The comparison of a pair of files does not depend on their order: a
    Part is flagged when the second is compared with the first exactly
    when it is flagged the other way round, with the two values swapped.
    The name reported is that of the file that comes first. *)
Theorem changes_symmetric a b pid va vb :
  (exists nm, (pid, nm, va, vb) ∈ changes a b)
  <-> (exists nm, (pid, nm, vb, va) ∈ changes b a).
Proof.
  split; intros [nm H]; apply in_changes in H
    as (pa & pb & Ea & Eb & -> & -> & -> & Hd);
    eexists; apply in_changes; exists pb, pa;
    rewrite differs_comm in Hd; tauto.
Qed.

(** *** Input without superscript digits *)



Section AllChars.
Variable P : ascii -> bool.







End AllChars.










(** *** Sections that are read *)

(** The headers whose blocks [parse_deep_search] reads a value from. *)
Definition is_thickness_header (l : string) : bool :=
  let line_strip := strip l in
  negb (String.eqb line_strip "" || startswith line_strip "$")
  && startswith line_strip "*"
  && match first_word line_strip with
     | Some w =>
         let keyword := upper w in
         startswith keyword "*SECTION_SHELL" || startswith keyword "*SECTION_BEAM"
     | None => false
     end.

Lemma parse_line_sections l rest d d' :
  is_thickness_header l = false ->
  parse_line l rest d = Ok d' -> sections d' = sections d.
Proof.
  unfold parse_line, is_thickness_header.
  destruct (_ || _); [now intros _ [= <-]|]. cbn [negb andb].
  destruct (startswith (strip l) "*"); [|now intros _ [= <-]]. cbn [andb].
  destruct (first_word (strip l)) as [w|]; [|now intros _ [= <-]].
  intros Hh. apply orb_false_iff in Hh as [-> ->].
  destruct (startswith (upper w) "*PART"); [|now intros [= <-]].
  unfold parse_part. intros H.
  apply rbind_ok in H as ([[[a b]|] nm] & _ & H); now injection H as <-.
Qed.

Lemma parse_loop_sections ls d d' :
  forallb (fun l => negb (is_thickness_header l)) ls = true ->
  parse_loop ls d = Ok d' -> sections d' = sections d.
Proof.
  revert d. induction ls as [|l r IH]; intros d Hh; [now intros [= <-]|].
  cbn [forallb] in Hh. apply andb_true_iff in Hh as [Hl Hr].
  apply negb_true_iff in Hl. simpl. intros H.
  apply rbind_ok in H as (d1 & H1 & H).
  rewrite (IH _ Hr H). eauto using parse_line_sections.
Qed.

(** X15 (Sections that are not read).
    Only [*SECTION_SHELL] and [*SECTION_BEAM] blocks give values: in a
    file without such a header (its Parts use solid Sections, say) no
    Section is recorded and the value of every Part is [0.0]. *)
Theorem other_sections_give_no_value lines d :
  forallb (fun l => negb (is_thickness_header l)) lines = true ->
  parse_deep_search lines = Ok d ->
  sections d = ∅ /\ forall pid p, parts d !! pid = Some p -> value p = fzero.
Proof.
  intros Hh H.
  assert (Hs : sections d = ∅).
  { unfold parse_deep_search in H. apply rbind_ok in H as (d0 & H0 & H).
    injection H as <-. simpl. exact (parse_loop_sections _ _ _ Hh H0). }
  split; [exact Hs|]. intros pid p Hp.
  unfold parse_deep_search in H. apply rbind_ok in H as (d0 & H0 & H).
  injection H as <-. simpl in *. rewrite lookup_fmap in Hp.
  destruct (parts d0 !! pid) as [q|] eqn:E; [|discriminate].
  simpl in Hp. injection Hp as <-. unfold link_part.
  rewrite Hs, lookup_empty.
  exact (parse_loop_unlinked _ _ _ H0 unlinked_no_data _ _ E).
Qed.

Definition solid_file : list string :=
  map line ["*KEYWORD"; "*PART"; "Block"; "1 10 100";
            "*SECTION_SOLID"; "10 1"; "*END"].

Lemma other_sections_give_no_value_witness :
  sections (parsed solid_file) = ∅
  /\ forall pid p, parts (parsed solid_file) !! pid = Some p -> value p = fzero.
Proof.
  apply (other_sections_give_no_value solid_file).
  - vm_compute. reflexivity.
  - vm_compute. reflexivity.
Defined.

(** *** The value of a Section *)

(** What the look-ahead of a Section header finds: nothing, or one
    Section id with its value. *)
Definition section_definition (l : string) (rest : list string) : gmap Z spec_float :=
  if is_thickness_header l then
    match section_scan 4 rest ∅ with
    | Ok m => m
    | Raise _ => ∅
    end
  else ∅.

(** Some line of [rest] defines the Section [sid]. *)
Fixpoint redefined_later (sid : Z) (rest : list string) : bool :=
  match rest with
  | [] => false
  | l :: r =>
      match section_definition l r !! sid with
      | Some _ => true
      | None => false
      end || redefined_later sid r
  end.

Lemma section_scan_union fuel rest secs :
  section_scan fuel rest secs = (m ← section_scan fuel rest ∅; Ok (m ∪ secs)).
Proof.
  revert rest. induction fuel as [|f IH]; intros rest.
  - simpl. now rewrite (left_id_L ∅ (∪)).
  - destruct rest as [|l r]; [simpl; now rewrite (left_id_L ∅ (∪))|]. simpl.
    destruct (startswith (strip l) "*"); [simpl; now rewrite (left_id_L ∅ (∪))|].
    destruct (startswith (strip l) "$"); [apply IH|].
    destruct (re_split (strip l)) as [|t0 ts]; [apply IH|].
    destruct (isdigit t0); [|apply IH].
    destruct (int_of_digits t0) as [sid|e]; [|reflexivity]. simpl.
    destruct (thickness_scan r) as [v|].
    + now rewrite insert_union_singleton_l, insert_empty.
    + now rewrite (left_id_L ∅ (∪)).
Qed.

Lemma thickness_header_not_part w :
  startswith (upper w) "*SECTION_SHELL" || startswith (upper w) "*SECTION_BEAM" = true ->
  startswith (upper w) "*PART" = false.
Proof.
  intros H. destruct (startswith (upper w) "*PART") eqn:HP; [|reflexivity].
  apply orb_true_iff in H as [H|H];
    destruct (startswith_comparable _ _ _ HP H) as [Hc|Hc];
    vm_compute in Hc; discriminate Hc.
Qed.

Lemma parse_line_section_definition l rest d d' :
  parse_line l rest d = Ok d' ->
  sections d' = section_definition l rest ∪ sections d.
Proof.
  destruct (is_thickness_header l) eqn:Eh.
  - unfold section_definition. rewrite Eh. revert Eh.
    unfold parse_line, is_thickness_header.
    destruct (_ || _); [discriminate|]. cbn [negb andb].
    destruct (startswith (strip l) "*"); [|discriminate]. cbn [andb].
    destruct (first_word (strip l)) as [w|]; [|discriminate].
    intros Hw. rewrite (thickness_header_not_part w Hw).
    assert (Hsec : parse_section rest d = Ok d' ->
                   sections d' = match section_scan 4 rest ∅ with
                                 | Ok m => m
                                 | Raise _ => ∅
                                 end ∪ sections d).
    { unfold parse_section. rewrite section_scan_union.
      destruct (section_scan 4 rest ∅) as [m|e]; [|discriminate].
      simpl. now intros [= <-]. }
    destruct (startswith (upper w) "*SECTION_SHELL"); [exact Hsec|].
    destruct (startswith (upper w) "*SECTION_BEAM"); [exact Hsec|discriminate].
  - intros H. rewrite (parse_line_sections _ _ _ _ Eh H).
    unfold section_definition. rewrite Eh. now rewrite (left_id_L ∅ (∪)).
Qed.

Lemma parse_loop_section_kept rest sid d d' :
  parse_loop rest d = Ok d' ->
  redefined_later sid rest = false ->
  sections d' !! sid = sections d !! sid.
Proof.
  revert d. induction rest as [|l r IH]; intros d; [now intros [= <-]|].
  cbn [parse_loop redefined_later]. intros H Hno.
  apply rbind_ok in H as (d1 & H1 & H).
  apply orb_false_iff in Hno as [Hl Hr].
  rewrite (IH _ H Hr), (parse_line_section_definition _ _ _ _ H1).
  rewrite lookup_union. destruct (section_definition l r !! sid); [discriminate|].
  now rewrite (left_id_L None union).
Qed.

Lemma parse_loop_section_last pre l rest sid v d0 d :
  parse_loop (pre ++ l :: rest) d0 = Ok d ->
  section_definition l rest !! sid = Some v ->
  redefined_later sid rest = false ->
  sections d !! sid = Some v.
Proof.
  revert d0. induction pre as [|x pre IH]; intros d0 H Hdef Hno.
  - cbn [app parse_loop] in H. apply rbind_ok in H as (d1 & H1 & H).
    rewrite (parse_loop_section_kept _ _ _ _ H Hno).
    rewrite (parse_line_section_definition _ _ _ _ H1), lookup_union, Hdef.
    now destruct (sections d0 !! sid).
  - cbn [app parse_loop] in H. apply rbind_ok in H as (d1 & H1 & H). eauto.
Qed.

(** X16 (value of a Section).
    A shell or beam Section header, the line of the ids and the line
    below it: the value recorded for the Section is the first field of
    that line, converted by [safe_float] ([0.0] when it is not a number),
    unless a later block defines the Section again. *)
Theorem section_value_is_first_field pre hdr idl vall rest d tid tids sid t0 ts :
  parse_deep_search (pre ++ hdr :: idl :: vall :: rest) = Ok d ->
  is_thickness_header hdr = true ->
  startswith (strip idl) "*" = false ->
  startswith (strip idl) "$" = false ->
  re_split (strip idl) = tid :: tids ->
  isdigit tid = true ->
  int_of_digits tid = Ok sid ->
  startswith (strip vall) "*" = false ->
  startswith (strip vall) "$" = false ->
  strip vall <> "" ->
  re_split (strip vall) = t0 :: ts ->
  redefined_later sid (idl :: vall :: rest) = false ->
  sections d !! sid = Some (safe_float t0).
Proof.
  intros H Hh Hi1 Hi2 Hi Hd Hsid Hv1 Hv2 Hv3 Hv Hno.
  assert (Hdef : section_definition hdr (idl :: vall :: rest) !! sid
                 = Some (safe_float t0)).
  { unfold section_definition. rewrite Hh. cbn [section_scan].
    rewrite Hi1, Hi2, Hi, Hd, Hsid. cbn [mbind result_bind rbind thickness_scan].
    rewrite Hv1, Hv2, Hv. apply String.eqb_neq in Hv3. rewrite Hv3.
    cbn [orb]. apply lookup_insert_eq. }
  unfold parse_deep_search in H. apply rbind_ok in H as (d1 & H1 & H).
  injection H as <-. simpl.
  exact (parse_loop_section_last _ _ _ _ _ _ _ H1 Hdef Hno).
Qed.

Lemma section_value_is_first_field_witness :
  sections (parsed negative_file) !! 10 = Some (safe_float "-2.0").
Proof.
  apply (section_value_is_first_field
           (map line ["*KEYWORD"; "*PART"; "Plate"; "1 10 100"])
           (line "*SECTION_SHELL") (line "10 2") (line "-2.0 -2.0 -2.0 -2.0")
           [line "*END"] (parsed negative_file) "10" ["2"] 10
           "-2.0" ["-2.0"; "-2.0"; "-2.0"]);
    try (vm_compute; reflexivity).
  discriminate.
Defined.

(** *** The name of a Part *)

(** X17 (name of a Part).
    A header, the title line and the line of the ids: the layout of a
    Part in a deck.  The Part is recorded under the title, without its
    white space at either end, and with the Section id of the line below. *)
Theorem title_line_names_part pre hdr title idl rest d pid sid :
  parse_deep_search (pre ++ hdr :: title :: idl :: rest) = Ok d ->
  is_part_header hdr = true ->
  startswith (strip title) "*" = false ->
  startswith (strip title) "$" = false ->
  get_numeric_line (strip title) = Ok None ->
  startswith (strip idl) "*" = false ->
  startswith (strip idl) "$" = false ->
  get_numeric_line (strip idl) = Ok (Some (pid, sid)) ->
  defines_later pid (title :: idl :: rest) = false ->
  exists p, parts d !! pid = Some p /\ name p = strip title /\ secid p = sid.
Proof.
  intros H Hh Ht1 Ht2 Ht Hi1 Hi2 Hi Hno.
  assert (Hdef : part_definition hdr (title :: idl :: rest)
                 = Some (pid, Part (strip title) sid fzero)).
  { unfold part_definition. rewrite Hh. cbn [part_scan].
    rewrite Ht1, Ht2, Ht. cbn [mbind result_bind rbind].
    rewrite Hi1, Hi2, Hi. cbn [mbind result_bind rbind].
    change (1 =? 1) with true. change (1 <? 1 + 1) with true. cbn iota.
    rewrite ?Ht2. reflexivity. }
  rewrite (last_part_definition_wins _ _ _ _ _ _ H Hdef Hno).
  eexists. split; [reflexivity|]. unfold link_part. simpl.
  now destruct (sections d !! sid).
Qed.

Lemma title_line_names_part_witness :
  exists p, parts (parsed negative_file) !! 1 = Some p
            /\ name p = strip (line "Plate") /\ secid p = 10.
Proof.
  apply (title_line_names_part [line "*KEYWORD"] (line "*PART") (line "Plate")
           (line "1 10 100")
           (map line ["*SECTION_SHELL"; "10 2"; "-2.0 -2.0 -2.0 -2.0"; "*END"]));
    vm_compute; reflexivity.
Defined.

(** *** Comments at the end of a line *)

Lemma before_dollar_app s t :
  has_dollar s = false -> before_dollar (s +:+ String "$" t) = s.
Proof.
  induction s as [|c r IH]; [reflexivity|]. simpl. intros H.
  apply orb_false_iff in H as [Hc Hr]. now rewrite Hc, IH.
Qed.

Lemma has_dollar_app s t : has_dollar (s +:+ String "$" t) = true.
Proof.
  induction s as [|c r IH]; [reflexivity|]. simpl. rewrite IH. apply orb_true_r.
Qed.

(** X18 (comment at the end of a line).
    What follows a dollar sign on a line is not read by
    [get_numeric_line]: the ids of a line are those of its text before the
    first dollar sign. *)
Theorem trailing_comment_ignored s t :
  has_dollar s = false ->
  get_numeric_line (s +:+ String "$" t) = get_numeric_line s.
Proof.
  intros H. unfold get_numeric_line.
  now rewrite has_dollar_app, before_dollar_app, H.
Qed.

Lemma trailing_comment_ignored_witness :
  get_numeric_line ("1 10 " +:+ String "$" " 2 20") = get_numeric_line "1 10 ".
Proof. apply trailing_comment_ignored. reflexivity. Defined.

End SS1More.

(** ** More on the similarity score *)

Module SimilarityMore.
Import Text TextFacts PyFloat Similarity SimilarityFacts.

(** *** Decks without a common keyword *)

(** X19 (no common keyword).
    Two decks that share no keyword name score [0.0]: the Jaccard index
    is 0 (or the union is empty) and there is no field to compare. *)
Theorem disjoint_keywords_score_zero ref tgt :
  keyword_names ref ∩ keyword_names tgt = ∅ ->
  calculate_score ref tgt = fzero.
Proof.
  intros H. unfold calculate_score, struct_score, param_score, count_fields.
  rewrite !canonicalize_keywords, H, elements_empty, size_empty. cbn [fold_left].
  destruct (decide _); [reflexivity|].
  change (0 <? 0) with false. cbv iota.
  destruct (size (keyword_names ref ∪ keyword_names tgt)) eqn:E.
  - apply size_empty_inv in E. exfalso. apply n. now apply leibniz_equiv.
  - reflexivity.
Qed.

Definition shell_card : keyword :=
  Keyword "*SECTION_SHELL" ["secid"] (fun _ => VInt 1).

Definition mat_card : keyword :=
  Keyword "*MAT_ELASTIC" ["mid"] (fun _ => VInt 1).

Lemma disjoint_keywords_score_zero_witness :
  calculate_score [shell_card] [mat_card] = fzero.
Proof.
  apply disjoint_keywords_score_zero. apply leibniz_equiv.
  apply elem_of_equiv_empty. intros x Hx.
  apply elem_of_intersection in Hx as [Hr Ht].
  unfold keyword_names in Hr, Ht. simpl in Hr, Ht.
  apply elem_of_union in Hr as [Hr|Hr]; [|now apply elem_of_empty in Hr].
  apply elem_of_union in Ht as [Ht|Ht]; [|now apply elem_of_empty in Ht].
  apply elem_of_singleton in Hr, Ht. subst x. discriminate Ht.
Defined.

(** *** The counters *)

(** X20 (the two counters).
    The fields that match are counted among the fields compared: after
    the loops [0 <= matching_fields <= total_fields]. *)
Theorem matching_fields_bounded ref_data tgt_data :
  0 <= (count_fields ref_data tgt_data).2 <= (count_fields ref_data tgt_data).1.
Proof.
  rewrite count_fields_tally. unfold tally. simpl.
  pose proof (List.filter_length_le spec_matches (compared_fields ref_data tgt_data)).
  lia.
Qed.

(** *** Padding of strings *)

Lemma lstrip_spaces ws s :
  all_chars is_space ws = true -> lstrip (ws +:+ s) = lstrip s.
Proof.
  induction ws as [|c r IH]; [reflexivity|]. simpl. intros H.
  apply andb_true_iff in H as [Hc Hr]. rewrite Hc. auto.
Qed.

Lemma rstrip_all_spaces ws : all_chars is_space ws = true -> rstrip ws = "".
Proof.
  induction ws as [|c r IH]; [reflexivity|]. simpl. intros H.
  apply andb_true_iff in H as [Hc Hr]. now rewrite (IH Hr), Hc.
Qed.

Lemma rstrip_spaces s ws :
  all_chars is_space ws = true -> rstrip (s +:+ ws) = rstrip s.
Proof.
  intros H. induction s as [|c r IH]; [now apply rstrip_all_spaces|].
  simpl. now rewrite IH.
Qed.

Lemma strip_spaces_right s ws :
  all_chars is_space ws = true -> strip (s +:+ ws) = strip s.
Proof.
  intros H. unfold strip. induction s as [|c r IH].
  - simpl. clear -H. induction ws as [|c r IH]; [reflexivity|].
    simpl in *. apply andb_true_iff in H as [Hc Hr]. rewrite Hc. auto.
  - simpl. destruct (is_space c); [exact IH|].
    exact (rstrip_spaces (String c r) ws H).
Qed.

(** X21 (padded strings).
    White space at either end of a string value is taken off before the
    comparison: a padded string and the bare one are normalised to the
    same value, and match. *)
Theorem padding_is_ignored ws1 ws2 s :
  all_chars is_space ws1 = true ->
  all_chars is_space ws2 = true ->
  normalize (VStr (ws1 +:+ s +:+ ws2)) = normalize (VStr s)
  /\ field_matches (normalize (VStr (ws1 +:+ s +:+ ws2))) (normalize (VStr s)) = true.
Proof.
  intros H1 H2.
  assert (E : strip (ws1 +:+ s +:+ ws2) = strip s).
  { unfold strip. rewrite lstrip_spaces by assumption.
    now apply strip_spaces_right. }
  simpl. rewrite E. split; [reflexivity|].
  unfold field_matches. now rewrite (proj2 (py_eq_str _ _) eq_refl).
Qed.

Lemma padding_is_ignored_witness :
  normalize (VStr ("  " +:+ "MAT1" +:+ "    ")) = normalize (VStr "MAT1")
  /\ field_matches (normalize (VStr ("  " +:+ "MAT1" +:+ "    ")))
       (normalize (VStr "MAT1")) = true.
Proof. apply padding_is_ignored; reflexivity. Defined.

(** *** The values of the canonical model *)

(** X22 (values of the canonical model).
    Every value the canonical model holds is the normalised value of a
    field of a card of the deck: a float rounded to six decimals, a
    string without white space at its ends, any other value as it is. *)
Theorem canonical_values_are_normalised kf n cards cid fd f v :
  In (n, cards) (canonicalize kf) ->
  In (cid, fd) cards ->
  In (f, v) fd ->
  exists kw name,
    In kw kf /\ In name (field_names kw) /\ v = normalize (getitem kw name).
Proof.
  intros Hn Hcid Hf.
  destruct (canonicalize_records kf n cards cid fd Hn Hcid) as (kw & Hkw & ->).
  apply card_fields_values in Hf as (name & Hname & ->). eauto.
Qed.

Definition padded_card : keyword :=
  Keyword "*MAT_ELASTIC" ["mid"; "title"]
    (fun name => if String.eqb name "mid" then VInt 1 else VStr " steel ").

Lemma canonical_values_are_normalised_witness :
  exists kw name,
    In kw [padded_card] /\ In name (field_names kw)
    /\ VStr "steel" = normalize (getitem kw name).
Proof.
  apply (canonical_values_are_normalised [padded_card] "*MAT_ELASTIC"
           [(VInt 1, [("mid", VInt 1); ("title", VStr "steel")])]
           (VInt 1) [("mid", VInt 1); ("title", VStr "steel")] "title").
  - vm_compute. left. reflexivity.
  - left. reflexivity.
  - right. left. reflexivity.
Defined.

End SimilarityMore.

(** ** The natural sort key (similarity.py) *)

Module NaturalSort.
Import Text.

(** [str.lower] for one character, on code points below 256: a capital
    ASCII letter and the capitals U+00C0..U+00DE other than the
    multiplication sign move up by 32. *)
Definition lower_char (c : ascii) : ascii :=
  let n := N_of_ascii c in
  if (((65 <=? n) && (n <=? 90))
      || ((192 <=? n) && (n <=? 222) && negb (n =? 215)))%N
  then ascii_of_N (n + 32) else c.

(** [s.lower()] *)
Fixpoint lower (s : string) : string :=
  match s with
  | EmptyString => EmptyString
  | String c r => String (lower_char c) (lower r)
  end.

(** [re.split('([0-9]+)', s)]: the group keeps the runs of digits, so the
    pieces are text, digits, text, ..., text; the text at either end and
    between two runs may be empty.  [in_digits] tells that the previous
    character belonged to a run of digits. *)
Fixpoint split_digits_go (s : string) (in_digits : bool) : string * list string :=
  match s with
  | EmptyString => (EmptyString, if in_digits then [EmptyString] else [])
  | String c r =>
      if is_ascii_digit c then
        if in_digits then let '(t, ts) := split_digits_go r true in (String c t, ts)
        else let '(t, ts) := split_digits_go r true in (EmptyString, String c t :: ts)
      else
        if in_digits
        then let '(t, ts) := split_digits_go r false in (EmptyString, String c t :: ts)
        else let '(t, ts) := split_digits_go r false in (String c t, ts)
  end.

Definition split_digits (s : string) : list string :=
  let '(t, ts) := split_digits_go s false in t :: ts.

(** An entry of the key: an [int] or a [str]. *)
Inductive key_item : Type :=
| KInt (n : Z)
| KStr (s : string).

(** [int(text) if text.isdigit() else text.lower()] *)
Definition key_of (text : string) : result key_item :=
  if isdigit text then n ← int_of_digits text; Ok (KInt n)
  else Ok (KStr (lower text)).

(** A list comprehension whose element expression can raise. *)
Fixpoint map_result {A B} (f : A -> result B) (l : list A) : result (list B) :=
  match l with
  | [] => Ok []
  | x :: r => rbind (f x) (fun y => rbind (map_result f r) (fun ys => Ok (y :: ys)))
  end.

(** [natural_sort_key] *)
Definition natural_sort_key (s : string) : result (list key_item) :=
  map_result key_of (split_digits s).

(** The comparison [sorted] makes on two keys, [k1 < k2] on lists: the
    first pair of entries that are not equal decides, and the shorter
    list comes first when there is none.  [None] stands for the
    [TypeError] of [<] between an [int] and a [str]. *)
Definition item_eqb (x y : key_item) : bool :=
  match x, y with
  | KInt a, KInt b => a =? b
  | KStr a, KStr b => String.eqb a b
  | _, _ => false
  end.

Definition item_ltb (x y : key_item) : option bool :=
  match x, y with
  | KInt a, KInt b => Some (a <? b)
  | KStr a, KStr b => Some (String.ltb a b)
  | _, _ => None
  end.

Fixpoint key_ltb (k1 k2 : list key_item) : option bool :=
  match k1, k2 with
  | [], [] => Some false
  | [], _ :: _ => Some true
  | _ :: _, [] => Some false
  | x :: r1, y :: r2 => if item_eqb x y then key_ltb r1 r2 else item_ltb x y
  end.

End NaturalSort.

Module NaturalSortFacts.
Import Text NaturalSort.

(** *** The shape of a key *)

Definition text_piece (t : string) : bool :=
  all_chars (fun c => negb (is_ascii_digit c)) t.

Definition digit_piece (t : string) : bool := all_chars is_ascii_digit t.

Definition nonempty (t : string) : bool :=
  match t with EmptyString => false | _ => true end.





Lemma ascii_digit_is_digit c : is_ascii_digit c = true -> is_digit_char c = true.
Proof. unfold is_digit_char. now intros ->. Qed.

Lemma digit_piece_isdigit t :
  digit_piece t = true -> all_chars is_digit_char t = true.
Proof.
  induction t as [|c r IH]; [reflexivity|]. unfold digit_piece. simpl.
  intros H. apply andb_true_iff in H as [Hc Hr].
  now rewrite (ascii_digit_is_digit c Hc), IH.
Qed.

Lemma key_of_digit_piece t :
  nonempty t = true -> digit_piece t = true ->
  key_of t = Ok (KInt (digits_value 0 t)).
Proof.
  intros Hn Hd. unfold key_of, int_of_digits.
  assert (E : isdigit t = true).
  { destruct t; [discriminate|]. now apply digit_piece_isdigit. }
  unfold digit_piece in Hd. now rewrite E, Hd.
Qed.

Lemma key_of_text_piece t x :
  text_piece t = true -> key_of t = Ok x -> x = KStr (lower t).
Proof.
  intros Ht. unfold key_of, int_of_digits.
  destruct (isdigit t) eqn:E; [|now intros [= <-]].
  destruct t as [|c r]; [discriminate|].
  unfold text_piece in Ht. simpl in Ht. apply andb_true_iff in Ht as [Hc _].
  apply negb_true_iff in Hc. simpl. rewrite Hc. discriminate.
Qed.

Lemma map_result_cons {A B} (f : A -> result B) x r k :
  map_result f (x :: r) = Ok k ->
  exists y ys, f x = Ok y /\ map_result f r = Ok ys /\ k = y :: ys.
Proof.
  cbn [map_result]. destruct (f x) as [y|e]; [|discriminate].
  destruct (map_result f r) as [ys|e]; [|discriminate].
  simpl. intros [= <-]. eauto.
Qed.





Definition key_or_nil (s : string) : list key_item :=
  match natural_sort_key s with
  | Ok k => k
  | Raise _ => []
  end.


(** *** Names without superscript digits *)







(** *** Numbers in names *)

Definition starts_with_digit (s : string) : bool :=
  match s with
  | String c _ => is_ascii_digit c
  | EmptyString => false
  end.

Lemma split_digits_go_text p s :
  text_piece p = true ->
  split_digits_go (p +:+ s) false
  = ((p +:+ (split_digits_go s false).1), (split_digits_go s false).2).
Proof.
  induction p as [|c r IH]; intros H.
  - change ("" +:+ s) with s. now destruct (split_digits_go s false).
  - unfold text_piece in H. simpl in H. apply andb_true_iff in H as [Hc Hr].
    apply negb_true_iff in Hc.
    change (String c r +:+ s) with (String c (r +:+ s)).
    cbn [split_digits_go]. rewrite Hc, (IH Hr). reflexivity.
Qed.

Lemma split_digits_go_after_run r :
  starts_with_digit r = false ->
  split_digits_go r true = (EmptyString, split_digits r).
Proof.
  unfold split_digits. destruct r as [|c r']; [reflexivity|].
  simpl. intros ->. now destruct (split_digits_go r' false).
Qed.

Lemma split_digits_go_run a r :
  digit_piece a = true ->
  starts_with_digit r = false ->
  split_digits_go (a +:+ r) true = (a, split_digits r).
Proof.
  intros Ha Hr. induction a as [|c a' IH].
  - change ("" +:+ r) with r. now apply split_digits_go_after_run.
  - unfold digit_piece in Ha. simpl in Ha. apply andb_true_iff in Ha as [Hc Ha].
    change (String c a' +:+ r) with (String c (a' +:+ r)).
    cbn [split_digits_go]. rewrite Hc, (IH Ha). reflexivity.
Qed.

Lemma split_digits_number p a r :
  text_piece p = true ->
  nonempty a = true -> digit_piece a = true ->
  starts_with_digit r = false ->
  split_digits (p +:+ a +:+ r) = p :: a :: split_digits r.
Proof.
  intros Hp Hn Ha Hr. unfold split_digits at 1.
  rewrite (split_digits_go_text p _ Hp).
  destruct a as [|c a']; [discriminate|].
  unfold digit_piece in Ha. simpl in Ha. apply andb_true_iff in Ha as [Hc Ha].
  change (String c a' +:+ r) with (String c (a' +:+ r)).
  cbn [split_digits_go]. rewrite Hc, (split_digits_go_run a' r Ha Hr).
  cbn [fst snd]. f_equal. clear. induction p as [|c p IH]; [reflexivity|].
  change (String c p +:+ "") with (String c (p +:+ "")). now rewrite IH.
Qed.

Lemma string_eqb_refl (s : string) : String.eqb s s = true.
Proof. now apply String.eqb_eq. Qed.

(** X25 (numbers in names).
    The numbers in names are compared as numbers: of two names that
    start with the same text followed by a number, the one with the
    smaller number has the smaller key, whatever the numbers of digits
    are ([design_2] comes before [design_10]). *)
Theorem numbers_order_names p a b r1 r2 k1 k2 :
  text_piece p = true ->
  nonempty a = true -> digit_piece a = true ->
  nonempty b = true -> digit_piece b = true ->
  starts_with_digit r1 = false ->
  starts_with_digit r2 = false ->
  natural_sort_key (p +:+ a +:+ r1) = Ok k1 ->
  natural_sort_key (p +:+ b +:+ r2) = Ok k2 ->
  digits_value 0 a < digits_value 0 b ->
  key_ltb k1 k2 = Some true /\ key_ltb k2 k1 = Some false.
Proof.
  intros Hp Hna Ha Hnb Hb Hr1 Hr2 H1 H2 Hlt.
  unfold natural_sort_key in H1, H2.
  rewrite split_digits_number in H1, H2 by assumption.
  apply map_result_cons in H1 as (x1 & ys1 & Hx1 & H1 & ->).
  apply map_result_cons in H2 as (x2 & ys2 & Hx2 & H2 & ->).
  apply map_result_cons in H1 as (y1 & zs1 & Hy1 & _ & ->).
  apply map_result_cons in H2 as (y2 & zs2 & Hy2 & _ & ->).
  rewrite (key_of_text_piece p x1 Hp Hx1), (key_of_text_piece p x2 Hp Hx2).
  rewrite (key_of_digit_piece a Hna Ha) in Hy1.
  rewrite (key_of_digit_piece b Hnb Hb) in Hy2.
  injection Hy1 as <-. injection Hy2 as <-.
  cbn [key_ltb item_eqb item_ltb]. rewrite string_eqb_refl.
  assert (E1 : (digits_value 0 a =? digits_value 0 b) = false) by (apply Z.eqb_neq; lia).
  assert (E2 : (digits_value 0 b =? digits_value 0 a) = false) by (apply Z.eqb_neq; lia).
  rewrite E1, E2. split; f_equal; [apply Z.ltb_lt|apply Z.ltb_ge]; lia.
Qed.

Lemma numbers_order_names_witness :
  key_ltb (key_or_nil ("design_" +:+ "2" +:+ ".k"))
          (key_or_nil ("design_" +:+ "10" +:+ ".k")) = Some true
  /\ key_ltb (key_or_nil ("design_" +:+ "10" +:+ ".k"))
             (key_or_nil ("design_" +:+ "2" +:+ ".k")) = Some false.
Proof.
  apply (numbers_order_names "design_" "2" "10" ".k" ".k"); vm_compute;
    reflexivity.
Defined.

(** *** Letter case *)

Lemma lower_char_digit c : is_ascii_digit (lower_char c) = is_ascii_digit c.
Proof. destruct c as [[] [] [] [] [] [] [] []]; reflexivity. Qed.

Lemma lower_char_isdigit c : is_digit_char (lower_char c) = is_digit_char c.
Proof. destruct c as [[] [] [] [] [] [] [] []]; reflexivity. Qed.

Lemma lower_char_idem c : lower_char (lower_char c) = lower_char c.
Proof. destruct c as [[] [] [] [] [] [] [] []]; reflexivity. Qed.

Lemma lower_char_of_digit c : is_ascii_digit c = true -> lower_char c = c.
Proof. destruct c as [[] [] [] [] [] [] [] []]; (reflexivity || discriminate). Qed.

Lemma lower_idem s : lower (lower s) = lower s.
Proof.
  induction s as [|c r IH]; [reflexivity|]. simpl. now rewrite lower_char_idem, IH.
Qed.

Lemma lower_digits s : all_chars is_ascii_digit s = true -> lower s = s.
Proof.
  induction s as [|c r IH]; [reflexivity|]. simpl. intros H.
  apply andb_true_iff in H as [Hc Hr]. now rewrite (lower_char_of_digit c Hc), IH.
Qed.

Lemma all_ascii_digits_lower s :
  all_chars is_ascii_digit (lower s) = all_chars is_ascii_digit s.
Proof.
  induction s as [|c r IH]; [reflexivity|]. simpl. now rewrite lower_char_digit, IH.
Qed.

Lemma isdigit_lower s : isdigit (lower s) = isdigit s.
Proof.
  destruct s as [|c r]; [reflexivity|]. simpl. rewrite lower_char_isdigit. f_equal.
  induction r as [|d r IH]; [reflexivity|]. simpl. now rewrite lower_char_isdigit, IH.
Qed.

Lemma key_of_lower t : key_of (lower t) = key_of t.
Proof.
  unfold key_of. rewrite isdigit_lower. destruct (isdigit t).
  - unfold int_of_digits. rewrite all_ascii_digits_lower.
    destruct (all_chars is_ascii_digit t) eqn:E; [|reflexivity].
    now rewrite (lower_digits t E).
  - now rewrite lower_idem.
Qed.

Lemma split_digits_go_lower s d :
  split_digits_go (lower s) d
  = (lower (split_digits_go s d).1, map lower (split_digits_go s d).2).
Proof.
  revert d. induction s as [|c r IH]; intros d; [now destruct d|].
  cbn [lower split_digits_go]. rewrite lower_char_digit.
  destruct (is_ascii_digit c), d; rewrite IH;
    now destruct (split_digits_go r _).
Qed.

Lemma split_digits_lower s : split_digits (lower s) = map lower (split_digits s).
Proof.
  unfold split_digits. rewrite split_digits_go_lower.
  now destruct (split_digits_go s false).
Qed.

Lemma map_result_key_lower ps :
  map_result key_of (map lower ps) = map_result key_of ps.
Proof.
  induction ps as [|p r IH]; [reflexivity|]. cbn [map map_result].
  now rewrite key_of_lower, IH.
Qed.

Lemma natural_sort_key_lower s : natural_sort_key (lower s) = natural_sort_key s.
Proof.
  unfold natural_sort_key. now rewrite split_digits_lower, map_result_key_lower.
Qed.

(** X26 (letter case).
    The key does not see letter case: two names that are equal once in
    lower case have the same key, and [sorted] takes them as equal. *)
Theorem key_ignores_case s1 s2 :
  lower s1 = lower s2 -> natural_sort_key s1 = natural_sort_key s2.
Proof.
  intros H. now rewrite <- (natural_sort_key_lower s1), H, natural_sort_key_lower.
Qed.

Lemma key_ignores_case_witness :
  natural_sort_key "Design_1.K" = natural_sort_key "design_1.k".
Proof. apply key_ignores_case. reflexivity. Defined.

End NaturalSortFacts.
